(** * SyncUser: the per-identity session registry and authentication state

    A shallow embedding of [sync/sync_user.cpp] (Realm object store).  A
    [SyncUser] holds an authentication state, a refresh token and two maps
    from realm URL to a weakly held [SyncSession].  Every member function is
    a function from the user before the call to an [Outcome]: the value
    returned (or the exception thrown), the user after the call, and the
    trace of what the call did to the outside: mutex operations, calls on
    sessions and metadata updates, in program order. *)

From stdpp Require Import base option list gmap strings fin_maps.

Open Scope string_scope.
Open Scope list_scope.

(** ** Sessions, as the user sees them *)

(** A session object is named by its identity.  A [shared_ptr] and a
    [weak_ptr] both carry that identity; whether a weak pointer still
    resolves is decided by the holders outside the user. *)
Abbreviation session_id := positive (only parsing).
Abbreviation shared_ptr := positive (only parsing).
Abbreviation weak_ptr := positive (only parsing).

(** What the rest of the program decides about the session objects: whether
    somebody still owns the object, [SyncSession::is_in_error_state()], and
    [SyncSession::config().realm_url]. *)
Record Sessions := {
  owned : session_id → bool;
  is_in_error_state : session_id → bool;
  realm_url : session_id → string
}.

(** [std::weak_ptr::lock]. *)
Definition weak_lock (ss : Sessions) (wp : weak_ptr) : option shared_ptr :=
  if owned ss wp then Some wp else None.

(** [std::weak_ptr::expired]. *)
Definition expired (ss : Sessions) (wp : weak_ptr) : bool :=
  negb (owned ss wp).

(** ** The user *)

Inductive State := Active | LoggedOut | Error.

Record SyncUser := mkSyncUser {
  m_state : State;
  m_server_url : string;
  m_is_admin : bool;
  m_refresh_token : string;
  m_identity : string;
  m_sessions : gmap string weak_ptr;
  m_waiting_sessions : gmap string weak_ptr
}.

Definition set_state (s : State) (u : SyncUser) : SyncUser :=
  mkSyncUser s (m_server_url u) (m_is_admin u) (m_refresh_token u)
             (m_identity u) (m_sessions u) (m_waiting_sessions u).

Definition set_refresh_token (t : string) (u : SyncUser) : SyncUser :=
  mkSyncUser (m_state u) (m_server_url u) (m_is_admin u) t
             (m_identity u) (m_sessions u) (m_waiting_sessions u).

Definition set_sessions (m : gmap string weak_ptr) (u : SyncUser) : SyncUser :=
  mkSyncUser (m_state u) (m_server_url u) (m_is_admin u) (m_refresh_token u)
             (m_identity u) m (m_waiting_sessions u).

Definition set_waiting_sessions (m : gmap string weak_ptr) (u : SyncUser) : SyncUser :=
  mkSyncUser (m_state u) (m_server_url u) (m_is_admin u) (m_refresh_token u)
             (m_identity u) (m_sessions u) m.

(** ** What a call does to the outside *)

Inductive Event :=
  | MutexLock
  | MutexUnlock
  | SessionIsInErrorState (s : session_id)
  | SessionLogOut (s : session_id)
  | ReviveIfNeeded (s : session_id)
  | BindWithAdminToken (s : session_id) (token url : string)
  | MetadataSetState (identity : string) (server_url : option string) (token : string)
  | MetadataMarkForRemoval (identity : string).

Global Instance State_eq_dec : EqDecision State.
Proof. solve_decision. Defined.

Global Instance Event_eq_dec : EqDecision Event.
Proof. solve_decision. Defined.

Inductive exception := invalid_argument (what : string).

Inductive result (A : Type) :=
  | Returned (a : A)
  | Thrown (e : exception).
Arguments Returned {A} a.
Arguments Thrown {A} e.

Record Outcome (A : Type) := mkOutcome {
  ret : A;
  user : SyncUser;
  trace : list Event
}.
Arguments mkOutcome {A} ret user trace.
Arguments ret {A} o.
Arguments user {A} o.
Arguments trace {A} o.

(** [SyncManager::shared().perform_metadata_update(...)], guarded by
    [if (!m_is_admin)]. *)
Definition unless_admin (u : SyncUser) (e : Event) : list Event :=
  if m_is_admin u then [] else [e].

(** ** Member functions *)

(** The constructor. *)
Definition SyncUser_ctor (refresh_token identity : string)
    (server_url : option string) (is_admin : bool) : Outcome unit :=
  let u := mkSyncUser Active (default "" server_url) is_admin refresh_token
                      identity ∅ ∅ in
  mkOutcome tt u (unless_admin u (MetadataSetState identity server_url refresh_token)).

(** The loop of [all_sessions]: [entries] is what the iterator still has to
    visit, [m] the map being erased from, [sessions] the vector built,
    [calls] the queries made so far. *)
Fixpoint all_sessions_loop (ss : Sessions) (entries : list (string * weak_ptr))
    (m : gmap string weak_ptr) (sessions : list shared_ptr) (calls : list Event)
    : gmap string weak_ptr * list shared_ptr * list Event :=
  match entries with
  | [] => (m, sessions, calls)
  | (url, wp) :: rest =>
      match weak_lock ss wp with
      | Some ptr_to_session =>
          let calls := calls ++ [SessionIsInErrorState ptr_to_session] in
          if negb (is_in_error_state ss ptr_to_session)
          then all_sessions_loop ss rest m (sessions ++ [ptr_to_session]) calls
          else all_sessions_loop ss rest (delete url m) sessions calls
      | None => all_sessions_loop ss rest (delete url m) sessions calls
      end
  end.

Definition all_sessions (ss : Sessions) (u : SyncUser) : Outcome (list shared_ptr) :=
  match m_state u with
  | Error => mkOutcome [] u [MutexLock; MutexUnlock]
  | _ =>
      let '(m, sessions, calls) :=
        all_sessions_loop ss (map_to_list (m_sessions u)) (m_sessions u) [] [] in
      mkOutcome sessions (set_sessions m u) ([MutexLock] ++ calls ++ [MutexUnlock])
  end.

Definition session_for_url (ss : Sessions) (u : SyncUser) (url : string)
    : Outcome (option shared_ptr) :=
  match m_state u with
  | Error => mkOutcome None u [MutexLock; MutexUnlock]
  | _ =>
      match m_sessions u !! url with
      | None => mkOutcome None u [MutexLock; MutexUnlock]
      | Some wp =>
          match weak_lock ss wp with
          | None =>
              mkOutcome None (set_sessions (delete url (m_sessions u)) u)
                        [MutexLock; MutexUnlock]
          | Some locked => mkOutcome (Some locked) u [MutexLock; MutexUnlock]
          end
      end
  end.

(** The loop of [update_refresh_token] over [m_waiting_sessions]: [m] is
    [m_sessions], [revive] is [sessions_to_revive]. *)
Fixpoint revive_loop (ss : Sessions) (entries : list (string * weak_ptr))
    (m : gmap string weak_ptr) (revive : list shared_ptr)
    : gmap string weak_ptr * list shared_ptr :=
  match entries with
  | [] => (m, revive)
  | (url, wp) :: rest =>
      match weak_lock ss wp with
      | Some ptr => revive_loop ss rest (<[url := ptr]> m) (revive ++ [ptr])
      | None => revive_loop ss rest m revive
      end
  end.

Definition update_refresh_token (ss : Sessions) (u : SyncUser) (token : string)
    : Outcome unit :=
  match m_state u with
  | Error => mkOutcome tt u [MutexLock; MutexUnlock]
  | Active =>
      let u' := set_refresh_token token u in
      mkOutcome tt u'
        ([MutexLock]
           ++ unless_admin u' (MetadataSetState (m_identity u') (Some (m_server_url u')) token)
           ++ [MutexUnlock])
  | LoggedOut =>
      let '(m, sessions_to_revive) :=
        revive_loop ss (map_to_list (m_waiting_sessions u)) (m_sessions u) [] in
      let u' :=
        set_waiting_sessions ∅
          (set_sessions m (set_state Active (set_refresh_token token u))) in
      mkOutcome tt u'
        ([MutexLock]
           ++ unless_admin u' (MetadataSetState (m_identity u') (Some (m_server_url u')) token)
           ++ [MutexUnlock]
           ++ (ReviveIfNeeded <$> sessions_to_revive))
  end.

(** The loop of [log_out] over [m_sessions]: [waiting] is
    [m_waiting_sessions], [calls] the calls made so far. *)
Fixpoint log_out_loop (ss : Sessions) (entries : list (string * weak_ptr))
    (waiting : gmap string weak_ptr) (calls : list Event)
    : gmap string weak_ptr * list Event :=
  match entries with
  | [] => (waiting, calls)
  | (url, wp) :: rest =>
      match weak_lock ss wp with
      | Some ptr =>
          log_out_loop ss rest (<[url := ptr]> waiting) (calls ++ [SessionLogOut ptr])
      | None => log_out_loop ss rest waiting calls
      end
  end.

Definition log_out (ss : Sessions) (u : SyncUser) : Outcome unit :=
  if m_is_admin u then mkOutcome tt u []
  else
    match m_state u with
    | LoggedOut => mkOutcome tt u [MutexLock; MutexUnlock]
    | _ =>
        let '(waiting, calls) :=
          log_out_loop ss (map_to_list (m_sessions u)) (m_waiting_sessions u) [] in
        let u' :=
          set_sessions ∅ (set_waiting_sessions waiting (set_state LoggedOut u)) in
        mkOutcome tt u'
          ([MutexLock] ++ calls
             ++ unless_admin u' (MetadataMarkForRemoval (m_identity u'))
             ++ [MutexUnlock])
    end.

Definition invalidate (u : SyncUser) : Outcome unit :=
  mkOutcome tt (set_state Error u) [MutexLock; MutexUnlock].

Definition refresh_token (u : SyncUser) : Outcome string :=
  mkOutcome (m_refresh_token u) u [MutexLock; MutexUnlock].

Definition state (u : SyncUser) : Outcome State :=
  mkOutcome (m_state u) u [MutexLock; MutexUnlock].

(** The lambda [has_session] of [register_session]. *)
Definition has_session (ss : Sessions) (url : string)
    (sessions : gmap string weak_ptr) : bool :=
  match sessions !! url with
  | Some wp => negb (expired ss wp)
  | None => false
  end.

Definition register_session (ss : Sessions) (u : SyncUser) (session : shared_ptr)
    : Outcome (result unit) :=
  let url := realm_url ss session in
  if has_session ss url (m_sessions u) || has_session ss url (m_waiting_sessions u)
  then
    mkOutcome
      (Thrown (invalid_argument
         "Can only register sessions that haven't previously been registered."))
      u [MutexLock; MutexUnlock]
  else
    match m_state u with
    | Active =>
        let u' := set_sessions (<[url := session]> (m_sessions u)) u in
        if m_is_admin u
        then mkOutcome (Returned tt) u'
               [MutexLock;
                BindWithAdminToken session (m_refresh_token u') (realm_url ss session);
                MutexUnlock]
        else mkOutcome (Returned tt) u'
               [MutexLock; MutexUnlock; ReviveIfNeeded session]
    | LoggedOut =>
        mkOutcome (Returned tt)
          (set_waiting_sessions (<[url := session]> (m_waiting_sessions u)) u)
          [MutexLock; MutexUnlock]
    | Error => mkOutcome (Returned tt) u [MutexLock; MutexUnlock]
    end.

(** ** Reading a trace *)

(** The calls a trace makes on what a session can be told to do: log out,
    revive, bind.  The query [is_in_error_state] is not one of them. *)
Definition is_session_call (e : Event) : bool :=
  match e with
  | SessionLogOut _ | ReviveIfNeeded _ | BindWithAdminToken _ _ _ => true
  | _ => false
  end.


Definition is_session_log_out (e : Event) : bool :=
  match e with SessionLogOut _ => true | _ => false end.

Definition is_revive (e : Event) : bool :=
  match e with ReviveIfNeeded _ => true | _ => false end.




(** How often a trace makes the call [e]. *)
Definition count_event (e : Event) (tr : list Event) : nat :=
  length (filter (e =.) tr).


(** ** Reading the maps *)

(** Every entry is filed under the URL of its session; [register_session]
    files them so and nothing else creates a key. *)
Definition keyed (ss : Sessions) (m : gmap string weak_ptr) : Prop :=
  map_Forall (λ url wp, realm_url ss wp = url) m.

(** An entry [all_sessions] keeps: it resolves and its session reports no
    fatal error. *)
Definition usable (ss : Sessions) (wp : weak_ptr) : option shared_ptr :=
  match weak_lock ss wp with
  | Some p => if is_in_error_state ss p then None else Some p
  | None => None
  end.

(** The entries of [src] that resolve, laid over [dst]. *)
Definition move_resolved (ss : Sessions) (src dst : gmap string weak_ptr)
    : gmap string weak_ptr :=
  filter (λ kv, is_Some (weak_lock ss kv.2)) src ∪ dst.

(** ** A small world to run the code on

    Session 1 serves "A" and is healthy, session 2 serves "B" and has failed
    fatally, session 3 served "C" and is gone. *)
Definition world : Sessions := {|
  owned := λ s, match s with 1 | 2 => true | _ => false end%positive;
  is_in_error_state := λ s, match s with 2 => true | _ => false end%positive;
  realm_url := λ s, match s with 1 => "A" | 2 => "B" | 3 => "C" | _ => "" end%positive
|}.

Definition three_sessions : gmap string weak_ptr :=
  <["A" := 1%positive]> (<["B" := 2%positive]> (<["C" := 3%positive]> ∅)).

Definition alice (s : State) : SyncUser :=
  mkSyncUser s "https://auth" false "tok" "alice" three_sessions ∅.

Definition alice_waiting (s : State) : SyncUser :=
  mkSyncUser s "https://auth" false "tok" "alice" ∅ three_sessions.

Definition root (s : State) : SyncUser :=
  mkSyncUser s "" true "admin-tok" "root" three_sessions ∅.

(** ** The public interface as one step *)

Inductive Call :=
  | CallAllSessions
  | CallSessionForUrl (url : string)
  | CallUpdateRefreshToken (token : string)
  | CallLogOut
  | CallInvalidate
  | CallRefreshToken
  | CallState
  | CallRegisterSession (session : shared_ptr).

(** The user after a call and what the call did outside. *)
Definition step (ss : Sessions) (u : SyncUser) (c : Call) : SyncUser * list Event :=
  match c with
  | CallAllSessions => let o := all_sessions ss u in (user o, trace o)
  | CallSessionForUrl url => let o := session_for_url ss u url in (user o, trace o)
  | CallUpdateRefreshToken token =>
      let o := update_refresh_token ss u token in (user o, trace o)
  | CallLogOut => let o := log_out ss u in (user o, trace o)
  | CallInvalidate => let o := invalidate u in (user o, trace o)
  | CallRefreshToken => let o := refresh_token u in (user o, trace o)
  | CallState => let o := state u in (user o, trace o)
  | CallRegisterSession session =>
      let o := register_session ss u session in (user o, trace o)
  end.

(** ** The users a program can have *)

(** A user comes from the constructor and is changed by calls only.  Between
    calls sessions may be released or fail; the URL a session serves stays. *)
Inductive reachable (url_of : session_id → string) : SyncUser → Prop :=
  | reachable_ctor token identity server_url is_admin :
      reachable url_of (user (SyncUser_ctor token identity server_url is_admin))
  | reachable_step ss u c :
      (∀ s, realm_url ss s = url_of s) →
      reachable url_of u →
      reachable url_of (step ss u c).1.

(** The calls that only read: the two lookups and the two accessors. *)
Definition is_query (c : Call) : bool :=
  match c with
  | CallAllSessions | CallSessionForUrl _ | CallRefreshToken | CallState => true
  | _ => false
  end.

Definition is_metadata_update (e : Event) : bool :=
  match e with
  | MetadataSetState _ _ _ | MetadataMarkForRemoval _ => true
  | _ => false
  end.

(** The small world later on: session 4 now serves "C" in place of the
    session that is gone. *)
Definition world_later : Sessions := {|
  owned := λ s, match s with 1 | 2 | 4 => true | _ => false end%positive;
  is_in_error_state := λ s, match s with 2 => true | _ => false end%positive;
  realm_url := λ s,
    match s with 1 => "A" | 2 => "B" | 3 | 4 => "C" | _ => "" end%positive
|}.

(** And later still: session 4 has been released. *)
Definition world_released : Sessions := {|
  owned := λ s, match s with 1 | 2 => true | _ => false end%positive;
  is_in_error_state := is_in_error_state world_later;
  realm_url := realm_url world_later
|}.

(** * Properties *)

(** ** Weak pointers *)

Section WeakPointers.
Context (ss : Sessions).

Lemma weak_lock_Some wp p :
  weak_lock ss wp = Some p ↔ owned ss wp = true ∧ p = wp.
Proof.
  unfold weak_lock. destruct (owned ss wp); split; try done.
  - by intros [= ->].
  - by intros [_ ->].
  - by intros [? _].
Qed.

Lemma weak_lock_None wp : weak_lock ss wp = None ↔ owned ss wp = false.
Proof. unfold weak_lock. by destruct (owned ss wp). Qed.

Lemma expired_weak_lock wp : expired ss wp = true ↔ weak_lock ss wp = None.
Proof. unfold expired, weak_lock. by destruct (owned ss wp). Qed.

Lemma usable_Some wp p :
  usable ss wp = Some p ↔
  weak_lock ss wp = Some p ∧ is_in_error_state ss p = false.
Proof.
  unfold usable. destruct (weak_lock ss wp) as [q|]; [|by split; [|intros []]].
  destruct (is_in_error_state ss q) eqn:E; split.
  - done.
  - intros [[= ->] ?]. congruence.
  - by intros [= ->].
  - by intros [[= ->] _].
Qed.

Lemma usable_None wp :
  usable ss wp = None ↔
  weak_lock ss wp = None ∨
  ∃ p, weak_lock ss wp = Some p ∧ is_in_error_state ss p = true.
Proof.
  unfold usable. destruct (weak_lock ss wp) as [q|]; [|by split; [left|]].
  destruct (is_in_error_state ss q) eqn:E; split.
  - intros _. right. by exists q.
  - done.
  - done.
  - intros [?|(p & [= ->] & ?)]; congruence.
Qed.

(** Resolving every pointer of a list keeps those still owned. *)
Lemma omap_weak_lock_filter (l : list weak_ptr) :
  omap (weak_lock ss) l = filter (λ wp, owned ss wp = true) l.
Proof.
  induction l as [|wp l IH]; [done|].
  rewrite filter_cons. csimpl. unfold weak_lock at 1.
  destruct (owned ss wp); rewrite IH; by case_decide.
Qed.

Lemma NoDup_omap_weak_lock (l : list weak_ptr) :
  NoDup l → NoDup (omap (weak_lock ss) l).
Proof. rewrite omap_weak_lock_filter. apply NoDup_filter. Qed.

Lemma elem_of_omap_weak_lock (l : list weak_ptr) p :
  p ∈ omap (weak_lock ss) l ↔ p ∈ l ∧ owned ss p = true.
Proof. rewrite omap_weak_lock_filter, list_elem_of_filter. tauto. Qed.
End WeakPointers.

(** ** Counting calls in a trace *)

Lemma count_event_app e tr1 tr2 :
  count_event e (tr1 ++ tr2) = count_event e tr1 + count_event e tr2.
Proof. unfold count_event. by rewrite filter_app, length_app. Qed.

Lemma count_event_cons_ne e e' tr :
  e ≠ e' → count_event e (e' :: tr) = count_event e tr.
Proof. intros Hne. unfold count_event. rewrite filter_cons. by case_decide. Qed.

Lemma count_event_unless_admin e u e' :
  e ≠ e' → count_event e (unless_admin u e') = 0.
Proof.
  intros. unfold unless_admin. destruct (m_is_admin u); [done|].
  by rewrite count_event_cons_ne.
Qed.

Lemma count_event_fmap (f : session_id → Event) `{!Inj (=) (=) f} p l :
  count_event (f p) (f <$> l) = length (filter (p =.) l).
Proof.
  unfold count_event. induction l as [|q l IH]; [done|].
  rewrite fmap_cons, !filter_cons.
  repeat case_decide; simplify_eq; simpl; auto.
Qed.

Lemma length_filter_eq_not_elem (l : list session_id) p :
  p ∉ l → length (filter (p =.) l) = 0.
Proof.
  induction l as [|q l IH]; [done|].
  intros [Hne Hin]%not_elem_of_cons. rewrite filter_cons.
  case_decide; [done|]. by apply IH.
Qed.

Lemma length_filter_eq_NoDup (l : list session_id) p :
  NoDup l → p ∈ l → length (filter (p =.) l) = 1.
Proof.
  induction 1 as [|q l Hq Hl IH]; [by intros ?%not_elem_of_nil|].
  rewrite filter_cons. intros [->|Hin]%elem_of_cons.
  - case_decide; [|done]. simpl. f_equal. by apply length_filter_eq_not_elem.
  - case_decide; [by subst|]. by apply IH.
Qed.

Global Instance SessionLogOut_inj : Inj (=) (=) SessionLogOut.
Proof. by intros ?? [= ->]. Qed.

Global Instance ReviveIfNeeded_inj : Inj (=) (=) ReviveIfNeeded.
Proof. by intros ?? [= ->]. Qed.

(** ** The three loops *)

Section Loops.
Context (ss : Sessions).
Implicit Types (l : list (string * weak_ptr)) (m : gmap string weak_ptr).
Implicit Types (url : string) (acc : list shared_ptr) (calls : list Event).

(** *** [all_sessions]: erase while iterating *)

Lemma all_sessions_loop_sessions l m acc calls :
  (all_sessions_loop ss l m acc calls).1.2 = acc ++ omap (usable ss) l.*2.
Proof.
  revert m acc calls. induction l as [|[url wp] l IH]; intros m acc calls; csimpl.
  { by rewrite app_nil_r. }
  unfold usable. destruct (weak_lock ss wp) as [p|]; [|apply IH].
  destruct (is_in_error_state ss p); simpl; rewrite IH; [done|].
  by rewrite <-app_assoc.
Qed.

(** One query for each entry that resolves, and none for the others. *)
Lemma all_sessions_loop_calls l m acc calls :
  (all_sessions_loop ss l m acc calls).2
  = calls ++ (SessionIsInErrorState <$> omap (weak_lock ss) l.*2).
Proof.
  revert m acc calls. induction l as [|[url wp] l IH]; intros m acc calls; csimpl.
  { by rewrite app_nil_r. }
  destruct (weak_lock ss wp) as [p|]; [|apply IH].
  destruct (is_in_error_state ss p); simpl; rewrite IH; by rewrite <-app_assoc.
Qed.

(** The loop only erases. *)
Lemma all_sessions_loop_absent l m acc calls url :
  m !! url = None → (all_sessions_loop ss l m acc calls).1.1 !! url = None.
Proof.
  revert m acc calls.
  induction l as [|[k wp] l IH]; intros m acc calls Hm; simpl; [done|].
  assert (delete k m !! url = None) by (rewrite lookup_delete_None; auto).
  destruct (weak_lock ss wp) as [p|]; [|by apply IH].
  destruct (is_in_error_state ss p); simpl; by apply IH.
Qed.

Lemma all_sessions_loop_erased l m acc calls url wp :
  (url, wp) ∈ l → usable ss wp = None →
  (all_sessions_loop ss l m acc calls).1.1 !! url = None.
Proof.
  revert m acc calls. induction l as [|[k wp'] l IH]; intros m acc calls Hin Hbad.
  { by apply not_elem_of_nil in Hin. }
  apply elem_of_cons in Hin as [[= <- <-]|Hin]; simpl.
  - unfold usable in Hbad. destruct (weak_lock ss wp) as [p|].
    + destruct (is_in_error_state ss p); [|done]. simpl.
      apply all_sessions_loop_absent, lookup_delete_eq.
    + apply all_sessions_loop_absent, lookup_delete_eq.
  - destruct (weak_lock ss wp') as [p|]; [|by apply IH].
    destruct (is_in_error_state ss p); simpl; by apply IH.
Qed.

Lemma all_sessions_loop_kept l m acc calls url :
  (∀ wp, (url, wp) ∈ l → usable ss wp ≠ None) →
  (all_sessions_loop ss l m acc calls).1.1 !! url = m !! url.
Proof.
  revert m acc calls.
  induction l as [|[k wp] l IH]; intros m acc calls Hgood; simpl; [done|].
  assert (∀ wp', (url, wp') ∈ l → usable ss wp' ≠ None) as Hrest.
  { intros wp' ?. apply Hgood. by right. }
  assert (usable ss wp = None → delete k m !! url = m !! url) as Hdel.
  { intros Hbad. apply lookup_delete_ne. intros ->. by apply (Hgood wp); [left|]. }
  unfold usable in Hdel. destruct (weak_lock ss wp) as [p|].
  - destruct (is_in_error_state ss p); simpl; rewrite IH by done; auto.
  - rewrite IH by done. auto.
Qed.

(** Run over the whole map, the loop leaves the usable entries. *)
Lemma all_sessions_loop_map m acc calls :
  (all_sessions_loop ss (map_to_list m) m acc calls).1.1
  = filter (λ kv, is_Some (usable ss kv.2)) m.
Proof.
  apply map_eq. intros url. destruct (m !! url) as [wp|] eqn:Hm.
  - destruct (usable ss wp) as [p|] eqn:Hu.
    + rewrite all_sessions_loop_kept.
      * symmetry. rewrite Hm. apply map_lookup_filter_Some_2; [done|].
        simpl. by rewrite Hu.
      * intros wp' Hin%elem_of_map_to_list. simplify_eq. by rewrite Hu.
    + rewrite (all_sessions_loop_erased _ _ _ _ url wp);
        [|by apply elem_of_map_to_list|done].
      symmetry. apply map_lookup_filter_None_2. right.
      intros x ? [q Hq]; simplify_eq/=; congruence.
  - rewrite all_sessions_loop_absent by done.
    symmetry. apply map_lookup_filter_None_2. by left.
Qed.

(** *** [update_refresh_token]: move what resolves *)

Lemma revive_loop_sessions l m acc :
  (revive_loop ss l m acc).2 = acc ++ omap (weak_lock ss) l.*2.
Proof.
  revert m acc. induction l as [|[url wp] l IH]; intros m acc; csimpl.
  { by rewrite app_nil_r. }
  destruct (weak_lock ss wp) as [p|]; rewrite IH; [|done].
  by rewrite <-app_assoc.
Qed.

Lemma revive_loop_lookup l m acc url :
  NoDup l.*1 →
  (revive_loop ss l m acc).1 !! url =
    match (list_to_map l : gmap string weak_ptr) !! url with
    | Some wp => if owned ss wp then Some wp else m !! url
    | None => m !! url
    end.
Proof.
  revert m acc. induction l as [|[k wp] l IH]; intros m acc Hnd; csimpl.
  { by rewrite lookup_empty. }
  apply NoDup_cons in Hnd as [Hk Hnd].
  unfold weak_lock. destruct (decide (k = url)) as [->|Hne].
  - rewrite lookup_insert_eq.
    destruct (owned ss wp); rewrite IH by done;
      rewrite not_elem_of_list_to_map_1 by done; [|done].
    apply lookup_insert_eq.
  - rewrite lookup_insert_ne by done.
    destruct (owned ss wp); rewrite IH by done; [|done].
    rewrite lookup_insert_ne by done. done.
Qed.

Lemma lookup_move_resolved (src dst : gmap string weak_ptr) url :
  move_resolved ss src dst !! url =
    match src !! url with
    | Some wp => if owned ss wp then Some wp else dst !! url
    | None => dst !! url
    end.
Proof.
  unfold move_resolved. rewrite lookup_union.
  destruct (src !! url) as [wp|] eqn:Hs.
  - destruct (owned ss wp) eqn:Ho.
    + rewrite (map_lookup_filter_Some_2 _ _ url wp); [by rewrite union_Some_l|done|].
      simpl. unfold weak_lock. rewrite Ho. by eexists.
    + rewrite map_lookup_filter_None_2; [by rewrite (left_id None _)|].
      right. intros x ? [q Hq]; simplify_eq/=. unfold weak_lock in Hq.
      by rewrite Ho in Hq.
  - rewrite map_lookup_filter_None_2 by (by left). by rewrite (left_id None _).
Qed.

Lemma revive_loop_map (src dst : gmap string weak_ptr) acc :
  (revive_loop ss (map_to_list src) dst acc).1 = move_resolved ss src dst.
Proof.
  apply map_eq. intros url.
  rewrite revive_loop_lookup by apply NoDup_fst_map_to_list.
  by rewrite list_to_map_to_list, lookup_move_resolved.
Qed.

(** *** [log_out]: the same move, with a call on each session moved *)

Lemma log_out_loop_waiting l m calls acc :
  (log_out_loop ss l m calls).1 = (revive_loop ss l m acc).1.
Proof.
  revert m calls acc. induction l as [|[url wp] l IH]; intros m calls acc; simpl; [done|].
  destruct (weak_lock ss wp) as [p|]; apply IH.
Qed.

Lemma log_out_loop_calls l m calls :
  (log_out_loop ss l m calls).2
  = calls ++ (SessionLogOut <$> omap (weak_lock ss) l.*2).
Proof.
  revert m calls. induction l as [|[url wp] l IH]; intros m calls; csimpl.
  { by rewrite app_nil_r. }
  destruct (weak_lock ss wp) as [p|]; rewrite IH; [|done].
  by rewrite <-app_assoc.
Qed.

Lemma log_out_loop_map (src dst : gmap string weak_ptr) calls :
  (log_out_loop ss (map_to_list src) dst calls).1 = move_resolved ss src dst.
Proof. rewrite (log_out_loop_waiting _ _ _ []). apply revive_loop_map. Qed.

(** *** Entries filed under their session's URL name distinct sessions *)

Lemma keyed_NoDup m : keyed ss m → NoDup (map_to_list m).*2.
Proof.
  intros Hk. apply NoDup_fmap_2_strong; [|apply NoDup_map_to_list].
  intros [k1 wp1] [k2 wp2] H1%elem_of_map_to_list H2%elem_of_map_to_list; simpl.
  intros <-. f_equal. rewrite <-(Hk _ _ H1). apply (Hk _ _ H2).
Qed.

Lemma elem_of_resolved m p :
  p ∈ omap (weak_lock ss) (map_to_list m).*2 ↔
  (∃ url, m !! url = Some p) ∧ owned ss p = true.
Proof.
  rewrite elem_of_omap_weak_lock, list_elem_of_fmap.
  split.
  - intros [([k wp] & -> & Hin%elem_of_map_to_list) Ho]. eauto.
  - intros [[url Hm] Ho]. split; [|done].
    exists (url, p). split; [done|]. by apply elem_of_map_to_list.
Qed.

Lemma keyed_insert m (s : shared_ptr) :
  keyed ss m → keyed ss (<[realm_url ss s := s]> m).
Proof. intros Hk. by apply map_Forall_insert_2. Qed.

Lemma keyed_move_resolved (src dst : gmap string weak_ptr) :
  keyed ss src → keyed ss dst → keyed ss (move_resolved ss src dst).
Proof.
  intros Hs Hd url wp. rewrite lookup_move_resolved.
  destruct (src !! url) as [wp'|] eqn:E; [|apply Hd].
  destruct (owned ss wp'); [|apply Hd]. intros [= <-]. by apply Hs.
Qed.
End Loops.

(** How many entries of a map [f] accepts: as many as it accepts along the
    iteration. *)
Lemma size_filter_is_Some (f : weak_ptr → option shared_ptr)
    (m : gmap string weak_ptr) :
  size (filter (λ kv, is_Some (f kv.2)) m) = length (omap f (map_to_list m).*2).
Proof.
  rewrite map_filter_alt, map_size_list_to_map.
  - induction (map_to_list m) as [|[k wp] l IH]; [done|].
    rewrite filter_cons. csimpl. case_decide as Hf.
    + destruct Hf as [p Hp]. simpl in Hp. rewrite Hp. simpl. by rewrite IH.
    + destruct (f wp) eqn:E; [|done]. destruct Hf. by eexists.
  - eapply sublist_NoDup; [apply (NoDup_fst_map_to_list m)|].
    apply fmap_sublist, sublist_filter.
Qed.

(** ** The state machine *)

Lemma update_refresh_token_Error ss u t :
  m_state u = Error → update_refresh_token ss u t = mkOutcome tt u [MutexLock; MutexUnlock].
Proof. intros H. unfold update_refresh_token. by rewrite H. Qed.

Lemma invalidate_state u : m_state (user (invalidate u)) = Error.
Proof. done. Qed.

Lemma log_out_admin ss u : m_is_admin u = true → log_out ss u = mkOutcome tt u [].
Proof. intros H. unfold log_out. by rewrite H. Qed.

Lemma log_out_state ss u :
  m_is_admin u = false → m_state (user (log_out ss u)) = LoggedOut.
Proof.
  intros H. unfold log_out. rewrite H.
  destruct (m_state u) eqn:E; [|done|];
    by destruct (log_out_loop ss _ _ _).
Qed.

(** For an admin user Error is final: no call leaves it. *)
Lemma admin_Error_final ss u c :
  m_is_admin u = true → m_state u = Error → m_state (step ss u c).1 = Error.
Proof.
  intros Ha He. destruct c; simpl; try done.
  - unfold all_sessions. by rewrite He.
  - unfold session_for_url. by rewrite He.
  - by rewrite update_refresh_token_Error.
  - by rewrite log_out_admin.
  - unfold register_session. rewrite He. by case_match.
Qed.

(** For every user, every call but [log_out] keeps Error. *)
Lemma Error_kept_but_log_out ss u c :
  c ≠ CallLogOut → m_state u = Error → m_state (step ss u c).1 = Error.
Proof.
  intros Hc He. destruct c; simpl; try done.
  - unfold all_sessions. by rewrite He.
  - unfold session_for_url. by rewrite He.
  - by rewrite update_refresh_token_Error.
  - unfold register_session. rewrite He. by case_match.
Qed.

(** C1 (defect in [log_out]).  The claim: once the state is Error, no call
    to update_refresh_token, log_out or invalidate changes it.  On the
    code: the non-admin user "alice" is invalidated, so her state is Error;
    [log_out] then tests only for LoggedOut, sets the state to LoggedOut
    and notifies the sessions; a following [update_refresh_token] finds
    LoggedOut and makes her Active again, with the new token. *)
Theorem log_out_leaves_Error :
  let u1 := user (invalidate (alice Active)) in
  let u2 := user (log_out world u1) in
  let u3 := user (update_refresh_token world u2 "tok2") in
  m_is_admin u1 = false ∧ m_state u1 = Error ∧
  m_state u2 = LoggedOut ∧
  count_event (SessionLogOut 1) (trace (log_out world u1)) = 1 ∧
  m_state u3 = Active ∧ m_refresh_token u3 = "tok2".
Proof. vm_compute. by repeat split. Qed.

(** C7.  [invalidate] sets the state to Error and changes nothing else:
    both session maps, the refresh token, the identity, the server URL and
    the admin flag are those of the user before the call, whatever its
    state was; no entry of either map is removed and no session is
    called. *)
Theorem invalidate_frame u :
  m_state (user (invalidate u)) = Error ∧
  m_sessions (user (invalidate u)) = m_sessions u ∧
  m_waiting_sessions (user (invalidate u)) = m_waiting_sessions u ∧
  m_refresh_token (user (invalidate u)) = m_refresh_token u ∧
  m_identity (user (invalidate u)) = m_identity u ∧
  m_server_url (user (invalidate u)) = m_server_url u ∧
  m_is_admin (user (invalidate u)) = m_is_admin u ∧
  trace (invalidate u) = [MutexLock; MutexUnlock].
Proof. by repeat split. Qed.

(** What [all_sessions] returns, leaves behind and asks when the state is
    not Error. *)
Lemma all_sessions_not_Error ss u :
  m_state u ≠ Error →
  all_sessions ss u =
    mkOutcome (omap (usable ss) (map_to_list (m_sessions u)).*2)
      (set_sessions (filter (λ kv, is_Some (usable ss kv.2)) (m_sessions u)) u)
      ([MutexLock]
         ++ (SessionIsInErrorState <$> omap (weak_lock ss) (map_to_list (m_sessions u)).*2)
         ++ [MutexUnlock]).
Proof.
  intros He. unfold all_sessions.
  pose proof (all_sessions_loop_sessions ss (map_to_list (m_sessions u)) (m_sessions u) [] []) as Hs.
  pose proof (all_sessions_loop_map ss (m_sessions u) [] []) as Hm.
  pose proof (all_sessions_loop_calls ss (map_to_list (m_sessions u)) (m_sessions u) [] []) as Hc.
  destruct (all_sessions_loop ss _ _ _ _) as [[m' sessions] calls].
  simpl in Hs, Hm, Hc. subst.
  by destruct (m_state u).
Qed.

(** ** Looking sessions up *)

(** C5.  [session_for_url url]: in state Error it returns none and leaves
    the user, the active map included, as it was; otherwise it returns none
    when the key is absent (user unchanged), erases the entry and returns
    none when the entry's weak pointer does not resolve (nothing else
    changes), and returns the resolved pointer when it does (user
    unchanged). *)
Theorem session_for_url_cases ss u url :
  (m_state u = Error →
     ret (session_for_url ss u url) = None ∧ user (session_for_url ss u url) = u) ∧
  (m_state u ≠ Error → m_sessions u !! url = None →
     ret (session_for_url ss u url) = None ∧ user (session_for_url ss u url) = u) ∧
  (∀ wp, m_state u ≠ Error → m_sessions u !! url = Some wp →
     weak_lock ss wp = None →
     ret (session_for_url ss u url) = None ∧
     user (session_for_url ss u url) = set_sessions (delete url (m_sessions u)) u) ∧
  (∀ wp p, m_state u ≠ Error → m_sessions u !! url = Some wp →
     weak_lock ss wp = Some p →
     ret (session_for_url ss u url) = Some p ∧ user (session_for_url ss u url) = u).
Proof.
  unfold session_for_url. split; [|split; [|split]].
  - by intros ->.
  - intros He ->. by destruct (m_state u).
  - intros wp He -> ->. by destruct (m_state u).
  - intros wp p He -> ->. by destruct (m_state u).
Qed.

(** C10.  While the state is not Error, [session_for_url url] returns the
    session of an active-map entry that resolves, whether or not the
    session reports a fatal error, and leaves the entry where it is;
    [all_sessions] on the same user leaves a fatally failed session out of
    its result and erases its entry. *)
Theorem session_for_url_ignores_error_state ss u url wp p :
  m_state u ≠ Error →
  m_sessions u !! url = Some wp →
  weak_lock ss wp = Some p →
  (ret (session_for_url ss u url) = Some p ∧
   user (session_for_url ss u url) = u ∧
   m_sessions (user (session_for_url ss u url)) !! url = Some wp) ∧
  (is_in_error_state ss p = true →
   (p ∉ ret (all_sessions ss u)) ∧
   m_sessions (user (all_sessions ss u)) !! url = None).
Proof.
  intros He Hm Hl. split.
  - unfold session_for_url. destruct (m_state u); [| |done]; by rewrite Hm, Hl.
  - intros Herr.
    assert (usable ss wp = None) as Hbad.
    { apply usable_None. right. by exists p. }
    rewrite all_sessions_not_Error by done. simpl. split.
    + intros (x & _ & [_ Hx]%usable_Some)%list_elem_of_omap. congruence.
    + apply map_lookup_filter_None_2. right.
      intros x ? [q Hq]; simplify_eq/=; congruence.
Qed.

(** ** Registering *)

Lemma has_session_true ss url (sessions : gmap string weak_ptr) :
  has_session ss url sessions = true ↔
  ∃ wp, sessions !! url = Some wp ∧ is_Some (weak_lock ss wp).
Proof.
  unfold has_session, expired, weak_lock. split.
  - destruct (sessions !! url) as [wp|]; [|done].
    destruct (owned ss wp) eqn:E; [|done]. intros _. exists wp.
    rewrite E. eauto.
  - intros (wp & -> & [p Hp]). by destruct (owned ss wp).
Qed.

(** C4.  In every state, [register_session] of a session whose realm URL
    already has an entry that resolves, in the active map or in the
    waiting map, throws [invalid_argument]; the user (state, token and
    both maps) is as before, and no session is called. *)
Theorem register_session_duplicate ss u session :
  (∃ wp, m_sessions u !! realm_url ss session = Some wp ∧ is_Some (weak_lock ss wp)) ∨
  (∃ wp, m_waiting_sessions u !! realm_url ss session = Some wp
         ∧ is_Some (weak_lock ss wp)) →
  (∃ what, ret (register_session ss u session) = Thrown (invalid_argument what)) ∧
  user (register_session ss u session) = u ∧
  trace (register_session ss u session) = [MutexLock; MutexUnlock].
Proof.
  intros Hdup. unfold register_session.
  assert (has_session ss (realm_url ss session) (m_sessions u)
          || has_session ss (realm_url ss session) (m_waiting_sessions u) = true) as ->.
  { apply orb_true_iff. destruct Hdup as [H|H]; [left|right]; by apply has_session_true. }
  simpl. repeat split. by eexists.
Qed.

(** Without such an entry the call returns; what it does depends on the
    state. *)
Lemma register_session_fresh ss u session :
  has_session ss (realm_url ss session) (m_sessions u) = false →
  has_session ss (realm_url ss session) (m_waiting_sessions u) = false →
  ret (register_session ss u session) = Returned tt ∧
  user (register_session ss u session) =
    match m_state u with
    | Active => set_sessions (<[realm_url ss session := session]> (m_sessions u)) u
    | LoggedOut =>
        set_waiting_sessions (<[realm_url ss session := session]> (m_waiting_sessions u)) u
    | Error => u
    end.
Proof.
  intros H1 H2. unfold register_session. rewrite H1, H2. simpl.
  destruct (m_state u); [destruct (m_is_admin u)| |]; done.
Qed.

(** ** Enumerating *)

(** C6.  In state Error [all_sessions] returns the empty vector, leaves
    the user, both maps included, as it was, and asks no session anything.
    Otherwise it goes through the entries of the active map once each: it
    asks each session that resolves once whether it is in a fatal error
    state; the vector returned has one element for each entry that resolves
    to a session not in a fatal error state, in iteration order, and
    nothing else; each entry that does not resolve, or whose session
    reports a fatal error, is erased; the other entries and the rest of the
    user stay. *)
Theorem all_sessions_cases ss u :
  (m_state u = Error →
     ret (all_sessions ss u) = [] ∧ user (all_sessions ss u) = u ∧
     trace (all_sessions ss u) = [MutexLock; MutexUnlock]) ∧
  (m_state u ≠ Error →
     trace (all_sessions ss u) =
       [MutexLock]
         ++ (SessionIsInErrorState <$> omap (weak_lock ss) (map_to_list (m_sessions u)).*2)
         ++ [MutexUnlock] ∧
     ret (all_sessions ss u) = omap (usable ss) (map_to_list (m_sessions u)).*2 ∧
     user (all_sessions ss u)
       = set_sessions (filter (λ kv, is_Some (usable ss kv.2)) (m_sessions u)) u ∧
     length (ret (all_sessions ss u)) = size (m_sessions (user (all_sessions ss u))) ∧
     (∀ p, p ∈ ret (all_sessions ss u) ↔
           ∃ url wp, m_sessions u !! url = Some wp ∧ weak_lock ss wp = Some p
                     ∧ is_in_error_state ss p = false) ∧
     (∀ url wp, m_sessions u !! url = Some wp →
        m_sessions (user (all_sessions ss u)) !! url =
          match weak_lock ss wp with
          | Some p => if is_in_error_state ss p then None else Some wp
          | None => None
          end)).
Proof.
  split.
  { intros He. unfold all_sessions. by rewrite He. }
  intros He. rewrite all_sessions_not_Error by done. simpl.
  split; [done|]. split; [done|]. split; [done|]. split; [|split].
  - by rewrite size_filter_is_Some.
  - intros p. rewrite list_elem_of_omap. split.
    + intros (wp & ([url wp'] & -> & Hin%elem_of_map_to_list)%list_elem_of_fmap
                 & Hu%usable_Some).
      exists url, wp'. tauto.
    + intros (url & wp & Hm & Hu). exists wp. split.
      * apply list_elem_of_fmap. exists (url, wp). split; [done|].
        by apply elem_of_map_to_list.
      * by apply usable_Some.
  - intros url wp Hm. rewrite map_lookup_filter, Hm. simpl.
    unfold usable. destruct (weak_lock ss wp) as [p|]; simpl; [|done].
    by destruct (is_in_error_state ss p).
Qed.

(** ** Calls on sessions in the traces of the two transitions *)

Lemma filter_is_revive_fmap (l : list shared_ptr) :
  filter (λ e, is_revive e = true) (ReviveIfNeeded <$> l) = ReviveIfNeeded <$> l.
Proof. induction l as [|p l IH]; [done|]. rewrite fmap_cons, filter_cons. simpl. by rewrite IH. Qed.

Lemma filter_is_session_log_out_fmap (l : list shared_ptr) :
  filter (λ e, is_session_log_out e = true) (SessionLogOut <$> l) = SessionLogOut <$> l.
Proof. induction l as [|p l IH]; [done|]. rewrite fmap_cons, filter_cons. simpl. by rewrite IH. Qed.

Lemma filter_unless_admin (P : Event → Prop) `{!∀ e, Decision (P e)} u e :
  ¬ P e → filter P (unless_admin u e) = [].
Proof.
  intros. unfold unless_admin. destruct (m_is_admin u); [done|].
  rewrite filter_cons. by case_decide.
Qed.

(** How often a session is named among the pointers that resolve. *)
Lemma count_resolved_1 ss (m : gmap string weak_ptr) url (p : shared_ptr) :
  keyed ss m → m !! url = Some p → owned ss p = true →
  length (filter (p =.) (omap (weak_lock ss) (map_to_list m).*2)) = 1.
Proof.
  intros Hk Hm Ho. apply length_filter_eq_NoDup.
  - by apply NoDup_omap_weak_lock, (keyed_NoDup ss).
  - apply elem_of_resolved. eauto.
Qed.

Lemma count_resolved_0 ss (m : gmap string weak_ptr) (p : shared_ptr) :
  ¬ ((∃ url, m !! url = Some p) ∧ owned ss p = true) →
  length (filter (p =.) (omap (weak_lock ss) (map_to_list m).*2)) = 0.
Proof. intros Hp. apply length_filter_eq_not_elem. by rewrite elem_of_resolved. Qed.

(** What [update_refresh_token] does to a logged-out user. *)
Lemma update_refresh_token_LoggedOut ss u t :
  m_state u = LoggedOut →
  update_refresh_token ss u t =
    mkOutcome tt
      (set_waiting_sessions ∅
         (set_sessions (move_resolved ss (m_waiting_sessions u) (m_sessions u))
            (set_state Active (set_refresh_token t u))))
      ([MutexLock]
         ++ unless_admin u (MetadataSetState (m_identity u) (Some (m_server_url u)) t)
         ++ [MutexUnlock]
         ++ (ReviveIfNeeded <$> omap (weak_lock ss) (map_to_list (m_waiting_sessions u)).*2)).
Proof.
  intros Hs. unfold update_refresh_token. rewrite Hs.
  pose proof (revive_loop_sessions ss (map_to_list (m_waiting_sessions u)) (m_sessions u) []) as Hl.
  pose proof (revive_loop_map ss (m_waiting_sessions u) (m_sessions u) []) as Hm.
  destruct (revive_loop ss _ _ _) as [m' revive]. simpl in Hl, Hm. by subst.
Qed.

(** What [log_out] does to a user that is neither an admin nor logged
    out. *)
Lemma log_out_not_LoggedOut ss u :
  m_is_admin u = false → m_state u ≠ LoggedOut →
  log_out ss u =
    mkOutcome tt
      (set_sessions ∅
         (set_waiting_sessions (move_resolved ss (m_sessions u) (m_waiting_sessions u))
            (set_state LoggedOut u)))
      ([MutexLock]
         ++ (SessionLogOut <$> omap (weak_lock ss) (map_to_list (m_sessions u)).*2)
         ++ [MetadataMarkForRemoval (m_identity u)]
         ++ [MutexUnlock]).
Proof.
  intros Ha Hs. unfold log_out. rewrite Ha.
  pose proof (log_out_loop_calls ss (map_to_list (m_sessions u)) (m_waiting_sessions u) []) as Hc.
  pose proof (log_out_loop_map ss (m_sessions u) (m_waiting_sessions u) []) as Hm.
  destruct (log_out_loop ss _ _ _) as [waiting calls]. simpl in Hc, Hm. subst.
  unfold unless_admin. simpl. rewrite Ha.
  by destruct (m_state u).
Qed.

Lemma count_revive_update_refresh_token ss u t p :
  m_state u = LoggedOut →
  count_event (ReviveIfNeeded p) (trace (update_refresh_token ss u t)) =
    length (filter (p =.) (omap (weak_lock ss) (map_to_list (m_waiting_sessions u)).*2)).
Proof.
  intros Hs. rewrite update_refresh_token_LoggedOut by done. simpl.
  rewrite count_event_cons_ne by done.
  rewrite count_event_app, count_event_unless_admin by done.
  rewrite count_event_cons_ne by done.
  apply (count_event_fmap ReviveIfNeeded).
Qed.

Lemma count_log_out_log_out ss u p :
  m_is_admin u = false → m_state u ≠ LoggedOut →
  count_event (SessionLogOut p) (trace (log_out ss u)) =
    length (filter (p =.) (omap (weak_lock ss) (map_to_list (m_sessions u)).*2)).
Proof.
  intros Ha Hs. rewrite log_out_not_LoggedOut by done. simpl.
  rewrite count_event_cons_ne by done.
  rewrite count_event_app, (count_event_fmap SessionLogOut).
  rewrite !count_event_cons_ne by done. unfold count_event. simpl. lia.
Qed.

(** C2.  [update_refresh_token t] on a logged-out user whose waiting
    entries are filed under their sessions' URLs: the token becomes [t],
    the state Active and the waiting map empty.  A waiting entry that
    resolves is in the active map afterwards, under its URL, and its
    session is revived exactly once.  A waiting entry that does not resolve
    is neither moved (the active map is at that URL what it was) nor
    revived.  The active map is unchanged at every other URL, a session
    that is not a resolving waiting entry is not revived, and the revivals
    are as many as the waiting entries that resolve. *)
Theorem update_refresh_token_revives ss u t :
  m_state u = LoggedOut →
  keyed ss (m_waiting_sessions u) →
  m_refresh_token (user (update_refresh_token ss u t)) = t ∧
  m_state (user (update_refresh_token ss u t)) = Active ∧
  m_waiting_sessions (user (update_refresh_token ss u t)) = ∅ ∧
  (∀ url wp p,
     m_waiting_sessions u !! url = Some wp → weak_lock ss wp = Some p →
     m_sessions (user (update_refresh_token ss u t)) !! url = Some p ∧
     count_event (ReviveIfNeeded p) (trace (update_refresh_token ss u t)) = 1) ∧
  (∀ url wp,
     m_waiting_sessions u !! url = Some wp → weak_lock ss wp = None →
     m_sessions (user (update_refresh_token ss u t)) !! url = m_sessions u !! url ∧
     count_event (ReviveIfNeeded wp) (trace (update_refresh_token ss u t)) = 0) ∧
  (∀ url,
     m_waiting_sessions u !! url = None →
     m_sessions (user (update_refresh_token ss u t)) !! url = m_sessions u !! url) ∧
  (∀ p,
     ¬ ((∃ url, m_waiting_sessions u !! url = Some p) ∧ owned ss p = true) →
     count_event (ReviveIfNeeded p) (trace (update_refresh_token ss u t)) = 0) ∧
  length (filter (λ e, is_session_call e = true) (trace (update_refresh_token ss u t)))
    = size (filter (λ kv, is_Some (weak_lock ss kv.2)) (m_waiting_sessions u)).
Proof.
  intros Hs Hk.
  assert (∀ url, m_sessions (user (update_refresh_token ss u t)) !! url =
                 move_resolved ss (m_waiting_sessions u) (m_sessions u) !! url) as Hmap.
  { intros url. by rewrite update_refresh_token_LoggedOut. }
  split; [by rewrite update_refresh_token_LoggedOut|].
  split; [by rewrite update_refresh_token_LoggedOut|].
  split; [by rewrite update_refresh_token_LoggedOut|].
  split; [|split; [|split; [|split]]].
  - intros url wp p Hw [Ho ->]%weak_lock_Some. split.
    + by rewrite Hmap, lookup_move_resolved, Hw, Ho.
    + rewrite count_revive_update_refresh_token by done.
      by apply (count_resolved_1 ss _ url).
  - intros url wp Hw Ho%weak_lock_None. split.
    + by rewrite Hmap, lookup_move_resolved, Hw, Ho.
    + rewrite count_revive_update_refresh_token by done.
      apply count_resolved_0. intros [_ ?]. congruence.
  - intros url Hw. by rewrite Hmap, lookup_move_resolved, Hw.
  - intros p Hp. rewrite count_revive_update_refresh_token by done.
    by apply count_resolved_0.
  - rewrite update_refresh_token_LoggedOut by done. simpl.
    rewrite size_filter_is_Some, filter_cons. simpl.
    rewrite filter_app, filter_unless_admin by done. simpl.
    rewrite filter_cons. simpl.
    induction (omap _ _) as [|q l IH]; [done|].
    rewrite fmap_cons, filter_cons. simpl. by rewrite IH.
Qed.

Lemma log_out_is_admin ss u : m_is_admin (user (log_out ss u)) = m_is_admin u.
Proof.
  unfold log_out. destruct (m_is_admin u) eqn:Ha; [done|].
  destruct (m_state u); [|done|]; by destruct (log_out_loop ss _ _ _).
Qed.

Lemma log_out_LoggedOut ss u :
  m_is_admin u = false → m_state u = LoggedOut →
  log_out ss u = mkOutcome tt u [MutexLock; MutexUnlock].
Proof. intros Ha Hs. unfold log_out. by rewrite Ha, Hs. Qed.

(** C3.  [log_out] on a non-admin Active user whose active entries are
    filed under their sessions' URLs: the state becomes LoggedOut and the
    active map empty; every active entry that resolves is in the waiting
    map afterwards, under its URL, and its session is told to log out
    exactly once; the calls made on sessions are as many as the active
    entries that resolve; [all_sessions] on the user after the call returns
    the empty vector. *)
Theorem log_out_moves_sessions ss u :
  m_is_admin u = false →
  m_state u = Active →
  keyed ss (m_sessions u) →
  m_state (user (log_out ss u)) = LoggedOut ∧
  m_sessions (user (log_out ss u)) = ∅ ∧
  (∀ url wp p,
     m_sessions u !! url = Some wp → weak_lock ss wp = Some p →
     m_waiting_sessions (user (log_out ss u)) !! url = Some p ∧
     count_event (SessionLogOut p) (trace (log_out ss u)) = 1) ∧
  length (filter (λ e, is_session_call e = true) (trace (log_out ss u)))
    = size (filter (λ kv, is_Some (weak_lock ss kv.2)) (m_sessions u)) ∧
  ret (all_sessions ss (user (log_out ss u))) = [].
Proof.
  intros Ha Hs Hk.
  assert (m_state u ≠ LoggedOut) as Hne by (by rewrite Hs).
  split; [by apply log_out_state|].
  split; [by rewrite log_out_not_LoggedOut|].
  split; [|split].
  - intros url wp p Hm [Ho ->]%weak_lock_Some. split.
    + rewrite log_out_not_LoggedOut by done. simpl.
      by rewrite lookup_move_resolved, Hm, Ho.
    + rewrite count_log_out_log_out by done. by apply (count_resolved_1 ss _ url).
  - rewrite log_out_not_LoggedOut by done. simpl.
    rewrite size_filter_is_Some, filter_cons. simpl.
    rewrite filter_app. simpl. rewrite !filter_cons. simpl.
    rewrite app_nil_r.
    induction (omap _ _) as [|q l IH]; [done|].
    rewrite fmap_cons, filter_cons. simpl. by rewrite IH.
  - rewrite all_sessions_not_Error; rewrite log_out_not_LoggedOut by done; [|done].
    simpl. by rewrite map_to_list_empty.
Qed.

(** C8.  [log_out] on an admin user, or on a user already logged out,
    returns the user unchanged (state, token and both maps) and its trace
    holds no call on a session and no metadata update: it is empty for an
    admin and the taking and releasing of the mutex otherwise.  So for any
    user a second [log_out] right after a first changes nothing and calls
    no session. *)
Theorem log_out_noop ss u :
  (m_is_admin u = true ∨ m_state u = LoggedOut →
     user (log_out ss u) = u ∧
     (trace (log_out ss u) = [] ∨ trace (log_out ss u) = [MutexLock; MutexUnlock])) ∧
  (user (log_out ss (user (log_out ss u))) = user (log_out ss u) ∧
   (trace (log_out ss (user (log_out ss u))) = [] ∨
    trace (log_out ss (user (log_out ss u))) = [MutexLock; MutexUnlock])).
Proof.
  assert (∀ v, m_is_admin v = true ∨ m_state v = LoggedOut →
     user (log_out ss v) = v ∧
     (trace (log_out ss v) = [] ∨ trace (log_out ss v) = [MutexLock; MutexUnlock])) as Hnoop.
  { intros v Hv. destruct (m_is_admin v) eqn:Ha.
    - rewrite log_out_admin by done. auto.
    - destruct Hv as [?|Hs]; [done|]. rewrite log_out_LoggedOut by done. auto. }
  split; [apply Hnoop|]. apply Hnoop.
  rewrite log_out_is_admin. destruct (m_is_admin u) eqn:Ha; [by left|right].
  by apply log_out_state.
Qed.

(** ** Where the mutex is held *)







Lemma session_for_url_trace ss u url :
  trace (session_for_url ss u url) = [MutexLock; MutexUnlock].
Proof.
  unfold session_for_url.
  destruct (m_state u); try done;
    (destruct (m_sessions u !! url) as [wp|]; [|done]); by destruct (weak_lock ss wp).
Qed.




(** ** The filing of entries is kept by every call *)

Lemma keyed_filter ss (P : string * weak_ptr → Prop) `{!∀ kv, Decision (P kv)}
    (m : gmap string weak_ptr) :
  keyed ss m → keyed ss (filter P m).
Proof. intros Hk url wp [Hm _]%map_lookup_filter_Some. by apply Hk. Qed.

Lemma keyed_step ss u c :
  keyed ss (m_sessions u) → keyed ss (m_waiting_sessions u) →
  keyed ss (m_sessions (step ss u c).1) ∧ keyed ss (m_waiting_sessions (step ss u c).1).
Proof.
  intros Hs Hw. destruct c; simpl; try done.
  - destruct (decide (m_state u = Error)) as [He|He].
    + unfold all_sessions. by rewrite He.
    + rewrite all_sessions_not_Error by done. simpl. split; [|done].
      by apply keyed_filter.
  - unfold session_for_url.
    destruct (m_state u); try done;
      (destruct (m_sessions u !! url) as [wp|]; [|done]);
      (destruct (weak_lock ss wp); [done|]); simpl;
      (split; [|done]); by apply map_Forall_delete.
  - destruct (m_state u) eqn:E.
    + unfold update_refresh_token. by rewrite E.
    + rewrite update_refresh_token_LoggedOut by done. simpl.
      split; [by apply keyed_move_resolved|apply map_Forall_empty].
    + by rewrite update_refresh_token_Error.
  - destruct (m_is_admin u) eqn:Ha; [by rewrite log_out_admin|].
    destruct (decide (m_state u = LoggedOut)) as [E|E].
    + by rewrite log_out_LoggedOut.
    + rewrite log_out_not_LoggedOut by done. simpl.
      split; [apply map_Forall_empty|by apply keyed_move_resolved].
  - unfold register_session.
    destruct (has_session ss _ (m_sessions u) || has_session ss _ (m_waiting_sessions u));
      [done|].
    destruct (m_state u); [destruct (m_is_admin u)| |]; simpl; try done;
      split; try done; by apply keyed_insert.
Qed.

(** A user fresh from the constructor is Active and has no entries. *)
Lemma SyncUser_ctor_keyed ss token identity server_url is_admin :
  let u := user (SyncUser_ctor token identity server_url is_admin) in
  m_state u = Active ∧ keyed ss (m_sessions u) ∧ keyed ss (m_waiting_sessions u).
Proof. simpl. split; [done|]. split; apply map_Forall_empty. Qed.

(** ** The code at work *)

(** A non-admin user registers session 1 for "A", logs out and is given a
    new token. *)
Example end_to_end :
  let u0 := user (SyncUser_ctor "tok" "alice" None false) in
  let r := register_session world u0 1 in
  let o := log_out world (user r) in
  let n := update_refresh_token world (user o) "tok2" in
  ret r = Returned tt ∧
  ret (session_for_url world (user r) "A") = Some 1%positive ∧
  ret (all_sessions world (user o)) = [] ∧
  count_event (SessionLogOut 1) (trace o) = 1 ∧
  m_state (user n) = Active ∧
  ret (all_sessions world (user n)) = [1%positive] ∧
  count_event (ReviveIfNeeded 1) (trace n) = 1 ∧
  ret (refresh_token (user n)) = "tok2".
Proof. vm_compute. by repeat split. Qed.


(** ** The theorems at work on "alice" and "root" *)

Lemma update_refresh_token_revives_witness :
  m_state (alice_waiting LoggedOut) = LoggedOut ∧
  keyed world (m_waiting_sessions (alice_waiting LoggedOut)) ∧
  m_state (user (update_refresh_token world (alice_waiting LoggedOut) "tok2")) = Active ∧
  m_sessions (user (update_refresh_token world (alice_waiting LoggedOut) "tok2")) !! "A"
    = Some 1%positive ∧
  count_event (ReviveIfNeeded 1)
    (trace (update_refresh_token world (alice_waiting LoggedOut) "tok2")) = 1.
Proof.
  assert (keyed world (m_waiting_sessions (alice_waiting LoggedOut))) as Hk.
  { repeat (apply map_Forall_insert_2; [reflexivity|]). apply map_Forall_empty. }
  split; [reflexivity|]. split; [exact Hk|].
  destruct (update_refresh_token_revives world (alice_waiting LoggedOut) "tok2"
              eq_refl Hk) as (_ & Hs & _ & Hres & _).
  split; [exact Hs|].
  apply (Hres "A" 1%positive 1%positive); vm_compute; reflexivity.
Defined.

Lemma log_out_moves_sessions_witness :
  m_is_admin (alice Active) = false ∧
  m_state (alice Active) = Active ∧
  keyed world (m_sessions (alice Active)) ∧
  m_state (user (log_out world (alice Active))) = LoggedOut ∧
  m_sessions (user (log_out world (alice Active))) = ∅ ∧
  ret (all_sessions world (user (log_out world (alice Active)))) = [].
Proof.
  assert (keyed world (m_sessions (alice Active))) as Hk.
  { repeat (apply map_Forall_insert_2; [reflexivity|]). apply map_Forall_empty. }
  split; [reflexivity|]. split; [reflexivity|]. split; [exact Hk|].
  destruct (log_out_moves_sessions world (alice Active) eq_refl eq_refl Hk)
    as (Hs & Hm & _ & _ & Hall).
  split; [exact Hs|]. split; [exact Hm|exact Hall].
Defined.

Lemma register_session_duplicate_witness :
  m_sessions (alice Active) !! realm_url world 2 = Some 2%positive ∧
  is_Some (weak_lock world 2) ∧
  user (register_session world (alice Active) 2) = alice Active.
Proof.
  assert (m_sessions (alice Active) !! realm_url world 2 = Some 2%positive) as Hm
    by (vm_compute; reflexivity).
  assert (is_Some (weak_lock world 2)) as Hl by (eexists; reflexivity).
  split; [exact Hm|]. split; [exact Hl|].
  apply (register_session_duplicate world (alice Active) 2).
  left. exists 2%positive. split; [exact Hm|exact Hl].
Defined.

Lemma session_for_url_cases_witness :
  ret (session_for_url world (alice Error) "A") = None ∧
  ret (session_for_url world (alice Active) "Z") = None ∧
  user (session_for_url world (alice Active) "C")
    = set_sessions (delete "C" three_sessions) (alice Active) ∧
  ret (session_for_url world (alice Active) "A") = Some 1%positive.
Proof.
  assert (m_state (alice Active) ≠ Error) as He by discriminate.
  split; [|split; [|split]].
  - apply (proj1 (session_for_url_cases world (alice Error) "A")). reflexivity.
  - apply (proj1 (proj2 (session_for_url_cases world (alice Active) "Z")) He).
    vm_compute; reflexivity.
  - apply (proj1 (proj2 (proj2 (session_for_url_cases world (alice Active) "C")))
             3%positive He); [vm_compute; reflexivity|reflexivity].
  - apply (proj2 (proj2 (proj2 (session_for_url_cases world (alice Active) "A")))
             1%positive 1%positive He); [vm_compute; reflexivity|reflexivity].
Defined.

Lemma session_for_url_ignores_error_state_witness :
  m_state (alice Active) ≠ Error ∧
  m_sessions (alice Active) !! "B" = Some 2%positive ∧
  weak_lock world 2 = Some 2%positive ∧
  is_in_error_state world 2 = true ∧
  ret (session_for_url world (alice Active) "B") = Some 2%positive ∧
  2%positive ∉ ret (all_sessions world (alice Active)).
Proof.
  assert (m_sessions (alice Active) !! "B" = Some 2%positive) as Hm
    by (vm_compute; reflexivity).
  assert (m_state (alice Active) ≠ Error) as He by discriminate.
  split; [exact He|]. split; [exact Hm|]. split; [reflexivity|].
  split; [reflexivity|].
  destruct (session_for_url_ignores_error_state world (alice Active) "B" 2 2
              He Hm eq_refl) as [(Hret & _) Hall].
  split; [exact Hret|]. apply Hall. reflexivity.
Defined.

Lemma all_sessions_cases_witness :
  m_state (alice Error) = Error ∧
  m_state (alice Active) ≠ Error ∧
  user (all_sessions world (alice Error)) = alice Error ∧
  ret (all_sessions world (alice Active))
    = omap (usable world) (map_to_list three_sessions).*2.
Proof.
  split; [reflexivity|]. split; [discriminate|]. split.
  - apply (proj1 (all_sessions_cases world (alice Error))). reflexivity.
  - apply (proj2 (all_sessions_cases world (alice Active))). discriminate.
Defined.

Lemma log_out_noop_witness :
  m_is_admin (root Active) = true ∧
  m_state (alice LoggedOut) = LoggedOut ∧
  user (log_out world (root Active)) = root Active ∧
  user (log_out world (alice LoggedOut)) = alice LoggedOut.
Proof.
  split; [reflexivity|]. split; [reflexivity|]. split.
  - apply (proj1 (log_out_noop world (root Active))). left. reflexivity.
  - apply (proj1 (log_out_noop world (alice LoggedOut))). right. reflexivity.
Defined.

(** * More on the same code *)

(** ** Registering, then looking up *)

Lemma has_session_false ss url (sessions : gmap string weak_ptr) :
  has_session ss url sessions = false ↔
  ∀ wp, sessions !! url = Some wp → owned ss wp = false.
Proof.
  unfold has_session, expired. destruct (sessions !! url) as [wp|]; [|done].
  split.
  - intros H wp' [= <-]. by destruct (owned ss wp).
  - intros H. by rewrite (H wp).
Qed.

Lemma elem_of_all_sessions ss u p :
  m_state u ≠ Error →
  p ∈ ret (all_sessions ss u) ↔
  ∃ url, m_sessions u !! url = Some p ∧ owned ss p = true
         ∧ is_in_error_state ss p = false.
Proof.
  intros He. rewrite all_sessions_not_Error by done. simpl.
  rewrite list_elem_of_omap. split.
  - intros (wp & ([url wp'] & -> & Hin%elem_of_map_to_list)%list_elem_of_fmap
               & [[Ho ->]%weak_lock_Some Herr]%usable_Some).
    eauto.
  - intros (url & Hm & Ho & Herr). exists p. split.
    + apply list_elem_of_fmap. exists (url, p). split; [done|].
      by apply elem_of_map_to_list.
    + apply usable_Some. split; [|done]. by apply weak_lock_Some.
Qed.

Lemma session_for_url_ret ss u url :
  ret (session_for_url ss u url) =
    match m_state u with
    | Error => None
    | _ => m_sessions u !! url ≫= weak_lock ss
    end.
Proof.
  unfold session_for_url.
  destruct (m_state u); try done;
    (destruct (m_sessions u !! url) as [wp|]; [|done]); simpl;
    by destruct (weak_lock ss wp).
Qed.

(** X1.  On an Active user, a session held by its caller and registered
    for a URL that has no live entry (none at all, or only an expired one)
    is what [session_for_url] returns for that URL right after, and
    [all_sessions] lists it unless it has failed fatally. *)
Theorem register_session_then_session_for_url ss u session :
  m_state u = Active →
  owned ss session = true →
  has_session ss (realm_url ss session) (m_sessions u) = false →
  has_session ss (realm_url ss session) (m_waiting_sessions u) = false →
  ret (register_session ss u session) = Returned tt ∧
  ret (session_for_url ss (user (register_session ss u session))
         (realm_url ss session)) = Some session ∧
  (is_in_error_state ss session = false →
   session ∈ ret (all_sessions ss (user (register_session ss u session)))).
Proof.
  intros Hs Ho H1 H2.
  destruct (register_session_fresh ss u session H1 H2) as [Hret Hu].
  rewrite Hs in Hu. split; [done|]. rewrite Hu. split.
  - rewrite session_for_url_ret. simpl. rewrite Hs, lookup_insert_eq. simpl.
    by apply weak_lock_Some.
  - intros Herr. apply elem_of_all_sessions; [simpl; by rewrite Hs|].
    exists (realm_url ss session). simpl. by rewrite lookup_insert_eq.
Qed.

(** X2.  A session registered while the user is logged out (and has no
    active entry, as after [log_out]) is kept waiting: the call reaches no
    session, and neither [session_for_url] nor [all_sessions] shows the
    session, whatever becomes of the sessions.  At the next
    [update_refresh_token], which may find the sessions changed: if the
    session is still held, it becomes the active entry of its URL and is
    revived exactly once; if it has been released, it is not revived and no
    lookup returns it. *)
Theorem register_session_while_logged_out ss ss' u session t :
  m_state u = LoggedOut →
  m_sessions u = ∅ →
  keyed ss' (m_waiting_sessions u) →
  realm_url ss' session = realm_url ss session →
  has_session ss (realm_url ss session) (m_waiting_sessions u) = false →
  let u1 := user (register_session ss u session) in
  let o := update_refresh_token ss' u1 t in
  trace (register_session ss u session) = [MutexLock; MutexUnlock] ∧
  (∀ ss0, ret (session_for_url ss0 u1 (realm_url ss session)) = None) ∧
  (∀ ss0, ret (all_sessions ss0 u1) = []) ∧
  (owned ss' session = true →
     ret (session_for_url ss' (user o) (realm_url ss session)) = Some session ∧
     count_event (ReviveIfNeeded session) (trace o) = 1) ∧
  (owned ss' session = false →
     ret (session_for_url ss' (user o) (realm_url ss session)) = None ∧
     count_event (ReviveIfNeeded session) (trace o) = 0).
Proof.
  intros Hs Hm Hk Hurl Hw u1 o.
  assert (has_session ss (realm_url ss session) (m_sessions u) = false) as Ha.
  { unfold has_session. by rewrite Hm, lookup_empty. }
  destruct (register_session_fresh ss u session Ha Hw) as [_ Hu].
  rewrite Hs in Hu. fold u1 in Hu.
  assert (m_state u1 = LoggedOut) as Hs1 by (by rewrite Hu).
  assert (m_sessions u1 = ∅) as Hm1 by (by rewrite Hu).
  assert (m_waiting_sessions u1
          = <[realm_url ss session := session]> (m_waiting_sessions u)) as Hw1
    by (by rewrite Hu).
  assert (∀ p, count_event (ReviveIfNeeded p) (trace o) =
               length (filter (p =.)
                 (omap (weak_lock ss') (map_to_list (m_waiting_sessions u1)).*2)))
    as Hcount.
  { intros p. subst o. by rewrite count_revive_update_refresh_token. }
  assert (ret (session_for_url ss' (user o) (realm_url ss session))
          = if owned ss' session then Some session else None) as Hret.
  { subst o. rewrite session_for_url_ret, update_refresh_token_LoggedOut by done.
    simpl. rewrite lookup_move_resolved, Hw1, lookup_insert_eq, Hm1, lookup_empty.
    unfold weak_lock. by destruct (owned ss' session) eqn:Ho; simpl; rewrite ?Ho. }
  split; [|split; [|split; [|split]]].
  - unfold register_session. by rewrite Ha, Hw, Hs.
  - intros ss0. by rewrite session_for_url_ret, Hs1, Hm1, lookup_empty.
  - intros ss0. rewrite all_sessions_not_Error by (by rewrite Hs1). simpl.
    by rewrite Hm1, map_to_list_empty.
  - intros Ho. rewrite Hret, Ho. split; [done|]. rewrite Hcount.
    apply (count_resolved_1 ss' _ (realm_url ss session));
      [|by rewrite Hw1, lookup_insert_eq|done].
    rewrite Hw1, <-Hurl. by apply keyed_insert.
  - intros Ho. rewrite Hret, Ho. split; [done|]. rewrite Hcount.
    apply count_resolved_0. intros [_ ?]. congruence.
Qed.

(** X3.  [register_session] throws exactly when the URL of the session has
    an entry that still resolves, in the active map or in the waiting map;
    in every other case (no entry, or only an expired one) it returns. *)
Theorem register_session_throws_iff ss u session :
  (∃ what, ret (register_session ss u session) = Thrown (invalid_argument what)) ↔
  (∃ wp, m_sessions u !! realm_url ss session = Some wp ∧ owned ss wp = true) ∨
  (∃ wp, m_waiting_sessions u !! realm_url ss session = Some wp ∧ owned ss wp = true).
Proof.
  assert (∀ m : gmap string weak_ptr,
    has_session ss (realm_url ss session) m = true ↔
    ∃ wp, m !! realm_url ss session = Some wp ∧ owned ss wp = true) as Hhas.
  { intros m. rewrite has_session_true. split; intros (wp & Hm & Hl); exists wp;
      (split; [done|]).
    - destruct Hl as [p Hp]. by apply weak_lock_Some in Hp as [? _].
    - exists wp. by apply weak_lock_Some. }
  rewrite <-!Hhas, <-orb_true_iff. unfold register_session.
  destruct (has_session ss _ (m_sessions u) || has_session ss _ (m_waiting_sessions u)).
  - split; [done|]. intros _. by eexists.
  - split; [|done]. intros [what Hret].
    destruct (m_state u); [destruct (m_is_admin u)| |]; done.
Qed.

(** X4.  On a user in state Error [register_session] tracks nothing: the
    user is as before (whether the call returns or throws), no session is
    called, and no lookup shows a session afterwards. *)
Theorem register_session_in_Error ss u session :
  m_state u = Error →
  user (register_session ss u session) = u ∧
  trace (register_session ss u session) = [MutexLock; MutexUnlock] ∧
  (∀ url, ret (session_for_url ss (user (register_session ss u session)) url) = None) ∧
  ret (all_sessions ss (user (register_session ss u session))) = [].
Proof.
  intros He.
  assert (user (register_session ss u session) = u
          ∧ trace (register_session ss u session) = [MutexLock; MutexUnlock]) as [Hu Ht].
  { unfold register_session. rewrite He. by case_match. }
  rewrite Hu. split; [done|]. split; [done|]. split.
  - intros url. by rewrite session_for_url_ret, He.
  - unfold all_sessions. by rewrite He.
Qed.

(** ** Pruning *)

Lemma map_to_list_filter_perm (P : string * weak_ptr → Prop)
    `{!∀ kv, Decision (P kv)} (m : gmap string weak_ptr) :
  map_to_list (filter P m) ≡ₚ filter P (map_to_list m).
Proof.
  rewrite map_filter_alt. apply map_to_list_to_map.
  eapply sublist_NoDup; [apply (NoDup_fst_map_to_list m)|].
  apply fmap_sublist, sublist_filter.
Qed.

(** Leaving out entries that are not usable does not change which sessions
    are usable. *)
Lemma omap_usable_filter ss (Q : weak_ptr → Prop) `{!∀ wp, Decision (Q wp)}
    (l : list (string * weak_ptr)) :
  (∀ wp, is_Some (usable ss wp) → Q wp) →
  omap (usable ss) (filter (λ kv, Q kv.2) l).*2 = omap (usable ss) l.*2.
Proof.
  intros HQ. induction l as [|[k wp] l IH]; [done|].
  rewrite filter_cons. simpl. case_decide as Hq; csimpl; rewrite IH; [done|].
  destruct (usable ss wp) eqn:E; [|done]. destruct Hq. apply HQ. by eexists.
Qed.

Lemma all_sessions_ret_filter ss u (Q : weak_ptr → Prop) `{!∀ wp, Decision (Q wp)} :
  m_state u ≠ Error →
  (∀ wp, is_Some (usable ss wp) → Q wp) →
  ret (all_sessions ss (set_sessions (filter (λ kv, Q kv.2) (m_sessions u)) u))
  ≡ₚ ret (all_sessions ss u).
Proof.
  intros He HQ. rewrite !all_sessions_not_Error by done. simpl.
  rewrite map_to_list_filter_perm. by rewrite omap_usable_filter.
Qed.

Lemma filter_filter_same (P : string * weak_ptr → Prop) `{!∀ kv, Decision (P kv)}
    (m : gmap string weak_ptr) :
  filter P (filter P m) = filter P m.
Proof. apply map_filter_id. by intros i x [_ ?]%map_lookup_filter_Some. Qed.


Lemma usable_is_Some_weak_lock ss wp :
  is_Some (usable ss wp) → is_Some (weak_lock ss wp).
Proof. intros [p [Hp _]%usable_Some]. by eexists. Qed.


(** X6.  [all_sessions] prunes once and for all: called again on the same
    sessions it changes nothing more and returns the same sessions. *)
Theorem all_sessions_idempotent ss u :
  user (all_sessions ss (user (all_sessions ss u))) = user (all_sessions ss u) ∧
  ret (all_sessions ss (user (all_sessions ss u))) ≡ₚ ret (all_sessions ss u).
Proof.
  destruct (decide (m_state u = Error)) as [He|He].
  { unfold all_sessions. by rewrite He; simpl; rewrite He. }
  rewrite (all_sessions_not_Error ss u) by done. simpl. split.
  - rewrite all_sessions_not_Error by done. simpl.
    unfold set_sessions. simpl. by rewrite filter_filter_same.
  - pose proof (all_sessions_ret_filter ss u (λ wp, is_Some (usable ss wp)) He
                  (λ _ H, H)) as Hp.
    simpl in Hp. rewrite Hp. by rewrite all_sessions_not_Error.
Qed.

(** X7.  The two lookups agree on healthy sessions: when entries are filed
    under their sessions' URLs, a session is in the result of
    [all_sessions] exactly when [session_for_url] returns it for its URL
    and it reports no fatal error. *)
Theorem all_sessions_iff_session_for_url ss u p :
  keyed ss (m_sessions u) →
  p ∈ ret (all_sessions ss u) ↔
  ret (session_for_url ss u (realm_url ss p)) = Some p
  ∧ is_in_error_state ss p = false.
Proof.
  intros Hk. rewrite session_for_url_ret.
  destruct (decide (m_state u = Error)) as [He|He].
  { unfold all_sessions. rewrite He. simpl. split; [by intros ?%not_elem_of_nil|].
    by intros [? _]. }
  rewrite elem_of_all_sessions by done.
  assert (m_sessions u !! realm_url ss p ≫= weak_lock ss = Some p ↔
          ∃ url, m_sessions u !! url = Some p ∧ owned ss p = true) as Hl.
  { split.
    - intros (wp & Hm & [Ho ->]%weak_lock_Some)%bind_Some. eauto.
    - intros (url & Hm & Ho). rewrite <-(Hk _ _ Hm) in Hm. rewrite Hm. simpl.
      by apply weak_lock_Some. }
  destruct (m_state u); [| |done]; rewrite Hl; (split;
    [intros (url & ? & ? & ?); split; [by exists url|done]
    |intros [(url & ? & ?) ?]; by exists url]).
Qed.

(** X8.  After [all_sessions], a lookup by URL, which may find the
    sessions changed, returns the session of an entry only if it resolved
    and reported no fatal error when [all_sessions] ran and still resolves;
    in state Error it returns none.  If no session has been released since
    [all_sessions], the lookup returns what [all_sessions] kept for that
    URL and has nothing left to erase. *)
Theorem session_for_url_after_all_sessions ss ss' u url :
  ret (session_for_url ss' (user (all_sessions ss u)) url) =
    match m_state u with
    | Error => None
    | _ => m_sessions u !! url ≫= λ wp, usable ss wp ≫= λ _, weak_lock ss' wp
    end ∧
  ((∀ p, owned ss p = true → owned ss' p = true) →
   ret (session_for_url ss' (user (all_sessions ss u)) url) =
     match m_state u with
     | Error => None
     | _ => m_sessions u !! url ≫= usable ss
     end ∧
   user (session_for_url ss' (user (all_sessions ss u)) url)
     = user (all_sessions ss u)).
Proof.
  destruct (decide (m_state u = Error)) as [He|He].
  { unfold all_sessions, session_for_url. by rewrite He; simpl; rewrite He. }
  rewrite all_sessions_not_Error by done. simpl.
  unfold session_for_url. simpl. rewrite map_lookup_filter.
  destruct (m_sessions u !! url) as [wp|]; simpl; [|by destruct (m_state u)].
  unfold usable. destruct (weak_lock ss wp) as [p|] eqn:Hp; simpl;
    [|by destruct (m_state u)].
  destruct (is_in_error_state ss p); simpl; [by destruct (m_state u)|].
  apply weak_lock_Some in Hp as [Ho ->]. split.
  - destruct (weak_lock ss' wp); by destruct (m_state u).
  - intros Hkeep. unfold weak_lock. rewrite (Hkeep wp Ho). by destruct (m_state u).
Qed.

(** X9.  The calls that only read ([all_sessions], [session_for_url],
    [refresh_token], [state]) tell no session to do anything and leave the
    state, the token and the waiting map alone; the active map can only
    lose entries, and never one whose session resolves and reports no
    fatal error. *)
Theorem queries_only_prune ss u c :
  is_query c = true →
  m_state (step ss u c).1 = m_state u ∧
  m_refresh_token (step ss u c).1 = m_refresh_token u ∧
  m_waiting_sessions (step ss u c).1 = m_waiting_sessions u ∧
  m_sessions (step ss u c).1 ⊆ m_sessions u ∧
  (∀ url wp, m_sessions u !! url = Some wp → is_Some (usable ss wp) →
     m_sessions (step ss u c).1 !! url = Some wp) ∧
  Forall (λ e, is_session_call e = false) (step ss u c).2.
Proof.
  intros Hq. destruct c; try done; simpl.
  - destruct (decide (m_state u = Error)) as [He|He].
    { unfold all_sessions. rewrite He. simpl. repeat (split; [done|]).
      by repeat constructor. }
    rewrite all_sessions_not_Error by done. simpl.
    repeat (split; [done|]). split; [apply map_filter_subseteq|]. split.
    + intros url wp Hm Hu. by apply map_lookup_filter_Some_2.
    + constructor; [done|]. apply Forall_app. split; [|by repeat constructor].
      apply Forall_fmap, Forall_true. done.
  - rewrite session_for_url_trace.
    assert (user (session_for_url ss u url) = u ∨
            (∃ wp, m_sessions u !! url = Some wp ∧ weak_lock ss wp = None) ∧
            user (session_for_url ss u url)
              = set_sessions (delete url (m_sessions u)) u) as [->|[(wp & Hm & Hl) ->]].
    { unfold session_for_url. destruct (m_state u); auto;
        (destruct (m_sessions u !! url) as [wp|]; auto);
        (destruct (weak_lock ss wp) eqn:E; auto); right; eauto. }
    + repeat (split; [done|]). by repeat constructor.
    + simpl. repeat (split; [done|]). split; [apply delete_subseteq|]. split.
      * intros url' wp' Hm' Hu. rewrite lookup_delete_ne; [done|].
        intros <-. simplify_eq. apply usable_is_Some_weak_lock in Hu.
        rewrite Hl in Hu. by destruct Hu.
      * by repeat constructor.
  - repeat (split; [done|]). by repeat constructor.
  - repeat (split; [done|]). by repeat constructor.
Qed.

(** ** What every call keeps *)

Lemma session_for_url_user ss u url :
  user (session_for_url ss u url) = u ∨
  user (session_for_url ss u url) = set_sessions (delete url (m_sessions u)) u.
Proof.
  unfold session_for_url. destruct (m_state u); auto;
    (destruct (m_sessions u !! url) as [wp|]; auto);
    destruct (weak_lock ss wp); auto.
Qed.

Lemma step_shape ss u c :
  (m_state u = Active → m_waiting_sessions u = ∅) →
  (m_state u = LoggedOut → m_sessions u = ∅ ∧ m_is_admin u = false) →
  (m_sessions u = ∅ ∨ m_waiting_sessions u = ∅) →
  (m_state (step ss u c).1 = Active → m_waiting_sessions (step ss u c).1 = ∅) ∧
  (m_state (step ss u c).1 = LoggedOut →
     m_sessions (step ss u c).1 = ∅ ∧ m_is_admin (step ss u c).1 = false) ∧
  (m_sessions (step ss u c).1 = ∅ ∨ m_waiting_sessions (step ss u c).1 = ∅).
Proof.
  intros HA HL HE. destruct c; simpl; try done.
  - destruct (decide (m_state u = Error)) as [He|He].
    { unfold all_sessions. by rewrite He. }
    rewrite all_sessions_not_Error by done. simpl.
    split; [done|]. split.
    + intros Hs. destruct (HL Hs) as [-> ?]. by rewrite map_filter_empty.
    + destruct HE as [->|?]; [left; apply map_filter_empty|by right].
  - assert (user (session_for_url ss u url) = u ∨
            user (session_for_url ss u url)
              = set_sessions (delete url (m_sessions u)) u) as [->| ->].
    { unfold session_for_url. destruct (m_state u); auto;
        (destruct (m_sessions u !! url) as [wp|]; auto);
        destruct (weak_lock ss wp); auto. }
    + done.
    + simpl. split; [done|]. split.
      * intros Hs. destruct (HL Hs) as [-> ?]. by rewrite delete_empty.
      * destruct HE as [->|?]; [left; apply delete_empty|by right].
  - destruct (m_state u) eqn:Hs.
    + unfold update_refresh_token. rewrite Hs. simpl. rewrite Hs.
      split; [done|split; [done|auto]].
    + rewrite update_refresh_token_LoggedOut by done. simpl.
      split; [done|split; [done|auto]].
    + rewrite update_refresh_token_Error by done. simpl. rewrite Hs.
      split; [done|split; [done|auto]].
  - destruct (m_is_admin u) eqn:Ha.
    { rewrite log_out_admin by done. simpl. by rewrite Ha. }
    destruct (decide (m_state u = LoggedOut)) as [Hs|Hs].
    + rewrite log_out_LoggedOut by done. simpl. by rewrite Ha.
    + rewrite log_out_not_LoggedOut by done. simpl.
      split; [done|split; [done|auto]].
  - unfold register_session.
    destruct (has_session ss _ (m_sessions u) || has_session ss _ (m_waiting_sessions u));
      [done|].
    destruct (m_state u) eqn:Hs.
    + assert (m_waiting_sessions u = ∅) as Hw by auto.
      destruct (m_is_admin u); simpl; rewrite ?Hs; (split; [done|split; [done|auto]]).
    + destruct HL as [Hm ?]; [done|]. simpl. rewrite ?Hs.
      split; [done|split; [done|auto]].
    + simpl. rewrite ?Hs. split; [done|split; [done|auto]].
Qed.

(** X10.  For every user a program can have: while it is Active nothing
    waits, while it is logged out it has no active entry and is no admin,
    and at all times one of the two maps is empty, so no URL has a live
    entry in both. *)
Theorem reachable_shape url_of u :
  reachable url_of u →
  (m_state u = Active → m_waiting_sessions u = ∅) ∧
  (m_state u = LoggedOut → m_sessions u = ∅ ∧ m_is_admin u = false) ∧
  (m_sessions u = ∅ ∨ m_waiting_sessions u = ∅) ∧
  (∀ ss url, has_session ss url (m_sessions u) = false
             ∨ has_session ss url (m_waiting_sessions u) = false).
Proof.
  intros Hr.
  assert ((m_state u = Active → m_waiting_sessions u = ∅) ∧
          (m_state u = LoggedOut → m_sessions u = ∅ ∧ m_is_admin u = false) ∧
          (m_sessions u = ∅ ∨ m_waiting_sessions u = ∅)) as (HA & HL & HE).
  { induction Hr as [|ss u c _ _ (HA & HL & HE)].
    - simpl. split; [done|]. split; [done|]. by left.
    - by apply step_shape. }
  repeat (split; [done|]). intros ss url. unfold has_session.
  destruct HE as [-> | ->]; [left|right]; by rewrite lookup_empty.
Qed.

Lemma keyed_ext ss ss' (m : gmap string weak_ptr) :
  (∀ s, realm_url ss s = realm_url ss' s) → keyed ss m → keyed ss' m.
Proof. intros Hurl Hk url wp Hm. rewrite <-Hurl. by apply Hk. Qed.

Lemma reachable_keyed url_of u ss :
  reachable url_of u →
  (∀ s, realm_url ss s = url_of s) →
  keyed ss (m_sessions u) ∧ keyed ss (m_waiting_sessions u).
Proof.
  intros Hr. revert ss. induction Hr as [|ss0 u c Hurl0 _ IH]; intros ss Hurl.
  - simpl. split; apply map_Forall_empty.
  - destruct (IH ss0 Hurl0) as [H1 H2].
    destruct (keyed_step ss0 u c H1 H2) as [H1' H2'].
    assert (∀ s, realm_url ss0 s = realm_url ss s) as Hext.
    { intros s. by rewrite Hurl0, Hurl. }
    split; by apply (keyed_ext ss0 ss).
Qed.

(** X11.  For every user a program can have, each entry of either map is
    filed under the URL of its session, and [all_sessions] returns no
    session twice. *)
Theorem reachable_all_sessions_NoDup url_of u ss :
  reachable url_of u →
  (∀ s, realm_url ss s = url_of s) →
  keyed ss (m_sessions u) ∧ keyed ss (m_waiting_sessions u) ∧
  NoDup (ret (all_sessions ss u)).
Proof.
  intros Hr Hurl. destruct (reachable_keyed url_of u ss Hr Hurl) as [H1 H2].
  split; [done|]. split; [done|].
  destruct (decide (m_state u = Error)) as [He|He].
  { unfold all_sessions. rewrite He. constructor. }
  rewrite all_sessions_not_Error by done. simpl.
  assert (omap (usable ss) (map_to_list (m_sessions u)).*2
          = filter (λ p, is_in_error_state ss p = false)
              (omap (weak_lock ss) (map_to_list (m_sessions u)).*2)) as ->.
  { induction ((map_to_list (m_sessions u)).*2) as [|wp l IH]; [done|].
    csimpl. unfold usable at 1. destruct (weak_lock ss wp) as [p|]; [|done].
    rewrite filter_cons.
    destruct (is_in_error_state ss p); case_decide; try done. by rewrite IH. }
  by apply NoDup_filter, NoDup_omap_weak_lock, (keyed_NoDup ss).
Qed.

(** X12.  No call changes the identity, the server URL or the admin flag;
    the token changes only in [update_refresh_token], which stores the new
    token unless the state is Error, and [refresh_token] reads it back. *)
Theorem step_fields ss u c :
  m_identity (step ss u c).1 = m_identity u ∧
  m_server_url (step ss u c).1 = m_server_url u ∧
  m_is_admin (step ss u c).1 = m_is_admin u ∧
  ret (refresh_token (step ss u c).1) =
    match c with
    | CallUpdateRefreshToken t =>
        match m_state u with Error => m_refresh_token u | _ => t end
    | _ => m_refresh_token u
    end.
Proof.
  destruct c; simpl; try done.
  - destruct (decide (m_state u = Error)) as [He|He].
    + unfold all_sessions. by rewrite He.
    + by rewrite all_sessions_not_Error.
  - by destruct (session_for_url_user ss u url) as [-> | ->].
  - destruct (m_state u) eqn:Hs.
    + unfold update_refresh_token. by rewrite Hs.
    + by rewrite update_refresh_token_LoggedOut.
    + by rewrite update_refresh_token_Error.
  - destruct (m_is_admin u) eqn:Ha; [by rewrite log_out_admin|].
    destruct (decide (m_state u = LoggedOut)) as [Hs|Hs].
    + by rewrite log_out_LoggedOut.
    + by rewrite log_out_not_LoggedOut.
  - unfold register_session. case_match; [done|].
    destruct (m_state u) eqn:Hs; [destruct (m_is_admin u) eqn:Ha| |];
      simpl; by rewrite ?Hs, ?Ha.
Qed.

(** X13.  Apart from [log_out], the state changes in two calls only:
    [invalidate] makes it Error, and [update_refresh_token] makes a
    logged-out user Active; lookups, accessors and [register_session]
    never change it. *)
Theorem step_state ss u c :
  c ≠ CallLogOut →
  m_state (step ss u c).1 =
    match c with
    | CallInvalidate => Error
    | CallUpdateRefreshToken _ =>
        match m_state u with LoggedOut => Active | s => s end
    | _ => m_state u
    end.
Proof.
  intros Hc. destruct c; simpl; try done.
  - destruct (decide (m_state u = Error)) as [He|He].
    + unfold all_sessions. by rewrite He.
    + by rewrite all_sessions_not_Error.
  - by destruct (session_for_url_user ss u url) as [-> | ->].
  - destruct (m_state u) eqn:Hs.
    + unfold update_refresh_token. by rewrite Hs.
    + by rewrite update_refresh_token_LoggedOut.
    + by rewrite update_refresh_token_Error.
  - unfold register_session. case_match; [done|].
    destruct (m_state u) eqn:Hs; [destruct (m_is_admin u) eqn:Ha| |];
      simpl; by rewrite ?Hs, ?Ha.
Qed.

(** ** Persisting *)

(** X14.  An admin user is never written to the metadata store: neither
    its construction nor any call on it makes a metadata update. *)
Theorem admin_never_persists ss u c token identity server_url :
  m_is_admin u = true →
  Forall (λ e, is_metadata_update e = false) (step ss u c).2 ∧
  trace (SyncUser_ctor token identity server_url true) = [].
Proof.
  intros Ha. split; [|done]. destruct c; simpl.
  - destruct (decide (m_state u = Error)) as [He|He].
    { unfold all_sessions. rewrite He. by repeat constructor. }
    rewrite all_sessions_not_Error by done. simpl.
    constructor; [done|]. apply Forall_app. split; [|by repeat constructor].
    apply Forall_fmap, Forall_true. done.
  - rewrite session_for_url_trace. by repeat constructor.
  - destruct (m_state u) eqn:Hs.
    + unfold update_refresh_token, unless_admin. rewrite Hs. simpl. rewrite Ha.
      by repeat constructor.
    + rewrite update_refresh_token_LoggedOut by done. unfold unless_admin.
      rewrite Ha. simpl. constructor; [done|]. constructor; [done|].
      apply Forall_fmap, Forall_true. done.
    + rewrite update_refresh_token_Error by done. by repeat constructor.
  - rewrite log_out_admin by done. constructor.
  - by repeat constructor.
  - by repeat constructor.
  - by repeat constructor.
  - unfold register_session. case_match; [by repeat constructor|].
    rewrite Ha. destruct (m_state u); by repeat constructor.
Qed.

(** X15.  For a non-admin user that is not in state Error,
    [update_refresh_token] makes exactly one metadata update, of the new
    token under the user's identity and server URL, and makes it while the
    mutex is held; in state Error it makes none. *)
Theorem update_refresh_token_persists ss u t :
  m_is_admin u = false →
  filter (λ e, is_metadata_update e = true) (trace (update_refresh_token ss u t)) =
    match m_state u with
    | Error => []
    | _ => [MetadataSetState (m_identity u) (Some (m_server_url u)) t]
    end ∧
  (m_state u ≠ Error →
   ∃ rest, trace (update_refresh_token ss u t) =
     [MutexLock; MetadataSetState (m_identity u) (Some (m_server_url u)) t; MutexUnlock]
       ++ rest).
Proof.
  intros Ha. destruct (m_state u) eqn:Hs.
  - unfold update_refresh_token, unless_admin. rewrite Hs. simpl. rewrite Ha.
    split; [done|]. intros _. by exists [].
  - rewrite update_refresh_token_LoggedOut by done. unfold unless_admin.
    rewrite Ha. simpl. split; [|intros _; by eexists].
    rewrite !filter_cons. simpl. f_equal.
    induction (omap _ _) as [|p l IH]; [done|].
    by rewrite fmap_cons, filter_cons.
  - rewrite update_refresh_token_Error by done. split; [done|]. by intros [].
Qed.

(** ** These at work on "alice" and "root" *)

Lemma register_session_then_session_for_url_witness :
  m_state (alice Active) = Active ∧
  owned world_later 4 = true ∧
  has_session world_later (realm_url world_later 4) (m_sessions (alice Active)) = false ∧
  has_session world_later (realm_url world_later 4)
    (m_waiting_sessions (alice Active)) = false ∧
  ret (session_for_url world_later (user (register_session world_later (alice Active) 4))
         (realm_url world_later 4)) = Some 4%positive.
Proof.
  assert (has_session world_later (realm_url world_later 4) (m_sessions (alice Active))
          = false) as H1 by (vm_compute; reflexivity).
  assert (has_session world_later (realm_url world_later 4)
            (m_waiting_sessions (alice Active)) = false) as H2
    by (vm_compute; reflexivity).
  split; [reflexivity|]. split; [reflexivity|]. split; [exact H1|]. split; [exact H2|].
  apply (register_session_then_session_for_url world_later (alice Active) 4
           eq_refl eq_refl H1 H2).
Defined.

Lemma register_session_while_logged_out_witness :
  m_state (alice_waiting LoggedOut) = LoggedOut ∧
  m_sessions (alice_waiting LoggedOut) = ∅ ∧
  keyed world_later (m_waiting_sessions (alice_waiting LoggedOut)) ∧
  realm_url world_later 4 = realm_url world_later 4 ∧
  has_session world_later (realm_url world_later 4)
    (m_waiting_sessions (alice_waiting LoggedOut)) = false ∧
  owned world_later 4 = true ∧
  ret (session_for_url world_later
         (user (register_session world_later (alice_waiting LoggedOut) 4))
         (realm_url world_later 4)) = None ∧
  ret (session_for_url world_later
         (user (update_refresh_token world_later
                  (user (register_session world_later (alice_waiting LoggedOut) 4))
                  "tok2"))
         (realm_url world_later 4)) = Some 4%positive ∧
  owned world_released 4 = false ∧
  ret (session_for_url world_released
         (user (update_refresh_token world_released
                  (user (register_session world_later (alice_waiting LoggedOut) 4))
                  "tok2"))
         (realm_url world_later 4)) = None.
Proof.
  assert (keyed world_later (m_waiting_sessions (alice_waiting LoggedOut))) as Hk.
  { repeat (apply map_Forall_insert_2; [reflexivity|]). apply map_Forall_empty. }
  assert (keyed world_released (m_waiting_sessions (alice_waiting LoggedOut))) as Hk'.
  { repeat (apply map_Forall_insert_2; [reflexivity|]). apply map_Forall_empty. }
  assert (has_session world_later (realm_url world_later 4)
            (m_waiting_sessions (alice_waiting LoggedOut)) = false) as Hw
    by (vm_compute; reflexivity).
  split; [reflexivity|]. split; [reflexivity|]. split; [exact Hk|].
  split; [reflexivity|]. split; [exact Hw|]. split; [reflexivity|].
  destruct (register_session_while_logged_out world_later world_later
              (alice_waiting LoggedOut) 4 "tok2" eq_refl eq_refl Hk eq_refl Hw)
    as (_ & Hnone & _ & Hsome & _).
  destruct (register_session_while_logged_out world_later world_released
              (alice_waiting LoggedOut) 4 "tok2" eq_refl eq_refl Hk' eq_refl Hw)
    as (_ & _ & _ & _ & Hgone).
  split; [exact (Hnone world_later)|]. split; [exact (proj1 (Hsome eq_refl))|].
  split; [reflexivity|exact (proj1 (Hgone eq_refl))].
Defined.

Lemma register_session_in_Error_witness :
  m_state (alice Error) = Error ∧
  user (register_session world_later (alice Error) 4) = alice Error.
Proof.
  split; [reflexivity|].
  apply (register_session_in_Error world_later (alice Error) 4). reflexivity.
Defined.


Lemma all_sessions_iff_session_for_url_witness :
  keyed world (m_sessions (alice Active)) ∧
  1%positive ∈ ret (all_sessions world (alice Active)).
Proof.
  assert (keyed world (m_sessions (alice Active))) as Hk.
  { repeat (apply map_Forall_insert_2; [reflexivity|]). apply map_Forall_empty. }
  split; [exact Hk|].
  apply (proj2 (all_sessions_iff_session_for_url world (alice Active) 1 Hk)).
  split; vm_compute; reflexivity.
Defined.

Lemma queries_only_prune_witness :
  is_query (CallSessionForUrl "C") = true ∧
  m_sessions (step world (alice Active) (CallSessionForUrl "C")).1
    ⊆ m_sessions (alice Active).
Proof.
  split; [reflexivity|].
  apply (queries_only_prune world (alice Active) (CallSessionForUrl "C")).
  reflexivity.
Defined.

Lemma reachable_shape_witness :
  reachable (realm_url world)
    (step world (user (SyncUser_ctor "tok" "alice" None false))
       (CallRegisterSession 1)).1 ∧
  (m_sessions (step world (user (SyncUser_ctor "tok" "alice" None false))
                 (CallRegisterSession 1)).1 = ∅ ∨
   m_waiting_sessions (step world (user (SyncUser_ctor "tok" "alice" None false))
                         (CallRegisterSession 1)).1 = ∅).
Proof.
  assert (reachable (realm_url world)
            (step world (user (SyncUser_ctor "tok" "alice" None false))
               (CallRegisterSession 1)).1) as Hr.
  { apply reachable_step; [reflexivity|apply reachable_ctor]. }
  split; [exact Hr|].
  apply (reachable_shape (realm_url world) _ Hr).
Defined.

Lemma reachable_all_sessions_NoDup_witness :
  reachable (realm_url world)
    (step world (user (SyncUser_ctor "tok" "alice" None false))
       (CallRegisterSession 1)).1 ∧
  (∀ s, realm_url world s = realm_url world s) ∧
  NoDup (ret (all_sessions world
                (step world (user (SyncUser_ctor "tok" "alice" None false))
                   (CallRegisterSession 1)).1)).
Proof.
  assert (reachable (realm_url world)
            (step world (user (SyncUser_ctor "tok" "alice" None false))
               (CallRegisterSession 1)).1) as Hr.
  { apply reachable_step; [reflexivity|apply reachable_ctor]. }
  split; [exact Hr|]. split; [reflexivity|].
  apply (reachable_all_sessions_NoDup (realm_url world) _ world Hr). reflexivity.
Defined.

Lemma step_state_witness :
  CallInvalidate ≠ CallLogOut ∧
  m_state (step world (alice Active) CallInvalidate).1 = Error.
Proof.
  assert (CallInvalidate ≠ CallLogOut) as Hc by discriminate.
  split; [exact Hc|].
  apply (step_state world (alice Active) CallInvalidate Hc).
Defined.

Lemma admin_never_persists_witness :
  m_is_admin (root LoggedOut) = true ∧
  Forall (λ e, is_metadata_update e = false)
    (step world (root LoggedOut) (CallUpdateRefreshToken "tok2")).2.
Proof.
  split; [reflexivity|].
  apply (admin_never_persists world (root LoggedOut) (CallUpdateRefreshToken "tok2")
           "" "" None).
  reflexivity.
Defined.

Lemma update_refresh_token_persists_witness :
  m_is_admin (alice Active) = false ∧
  filter (λ e, is_metadata_update e = true)
    (trace (update_refresh_token world (alice Active) "tok2"))
  = [MetadataSetState "alice" (Some "https://auth") "tok2"].
Proof.
  split; [reflexivity|].
  apply (update_refresh_token_persists world (alice Active) "tok2"). reflexivity.
Defined.

Lemma session_for_url_after_all_sessions_witness :
  (∀ p, owned world p = true → owned world_later p = true) ∧
  user (session_for_url world_later (user (all_sessions world (alice Active))) "C")
    = user (all_sessions world (alice Active)).
Proof.
  assert (∀ p, owned world p = true → owned world_later p = true) as Hkeep.
  { intros p. simpl. destruct p as [[| |]|[| |]|]; simpl; congruence. }
  split; [exact Hkeep|].
  apply (proj2 (session_for_url_after_all_sessions world world_later (alice Active) "C")
           Hkeep).
Defined.
